(** * Ticket classification contract: a shallow embedding of
    [agent_classifier.py] and of the start-up code and the routes of
    [app.py].

    The file follows the Python source function by function.  Python
    values are modelled by the type [pyval]; Python text is a list of
    Unicode code points; the remote model, [json.loads] and the
    built-in [format] are the members of the class [External] (and
    the one formatting with a specification, of the class
    [Formatting]), so that every statement about the contract holds
    for whatever these collaborators do.  A model of the JSON codec ([Json.loads],
    [Json.dumps]) and scripted services are given further down; the
    round trip of a classification and the worked examples use
    them. *)

From Stdlib Require Import ZArith NArith List Ascii String Lia Bool.
From stdpp Require Import base tactics option list gmap pretty.

Set Warnings "-register-all".

Local Open Scope N_scope.
Local Open Scope nat_scope.
Local Open Scope list_scope.

(** ** Text *)

(** A Python [str] is a sequence of code points. *)
Abbreviation str := (list N).

(** [u "abc"] is the text of an ASCII literal. *)
Definition u (s : string) : str := N_of_ascii <$> list_ascii_of_string s.

(** [q] is [u] for literals that hold double quotes: the literal
    writes [~] where the text has a double quote (code point 34). *)
Definition q (s : string) : str :=
  (λ c : N, if (c =? 126)%N then 34%N else c) <$> u s.

Definition unlines (ls : list str) : str :=
  match ls with
  | [] => []
  | l :: ls' => l ++ concat ((λ x : str, 10%N :: x) <$> ls')
  end.

(** [str.isspace] on one code point (CPython's [_PyUnicode_IsWhitespace]). *)
Definition isspace (c : N) : bool :=
  ((9 <=? c) && (c <=? 13) || (28 <=? c) && (c <=? 32)
   || (c =? 133) || (c =? 160) || (c =? 5760)
   || (8192 <=? c) && (c <=? 8202)
   || (c =? 8232) || (c =? 8233) || (c =? 8239) || (c =? 8287)
   || (c =? 12288))%N.

Fixpoint lstrip (s : str) : str :=
  match s with
  | c :: s' => if isspace c then lstrip s' else s
  | [] => []
  end.

Fixpoint rstrip (s : str) : str :=
  match s with
  | c :: s' =>
      match rstrip s' with
      | [] => if isspace c then [] else [c]
      | r => c :: r
      end
  | [] => []
  end.

(** [s.strip()] *)
Definition strip (s : str) : str := rstrip (lstrip s).

(** [s.startswith(p)] *)
Fixpoint startswith (p s : str) : bool :=
  match p, s with
  | [], _ => true
  | a :: p', b :: s' => (a =? b)%N && startswith p' s'
  | _ :: _, [] => false
  end.

(** [s.find(sub)]: the least index at which [sub] occurs in [s]. *)
Fixpoint find (sub s : str) : option nat :=
  if startswith sub s then Some 0
  else match s with
       | [] => None
       | _ :: s' => S <$> find sub s'
       end.

(** [sub in s] *)
Definition py_in (sub s : str) : bool :=
  match find sub s with Some _ => true | None => false end.

(** [s.split(sep)] for a non-empty separator: cut at the first
    occurrence, go on after it.  Each round consumes at least one code
    point, so [length s] rounds are enough ([split_unfold] below). *)
Fixpoint split_fuel (fuel : nat) (sep s : str) : list str :=
  match find sep s with
  | None => [s]
  | Some i =>
      take i s ::
      match fuel with
      | 0 => []
      | S fuel' => split_fuel fuel' sep (drop (i + length sep) s)
      end
  end.

Definition split (sep s : str) : list str := split_fuel (length s) sep s.

(** ** Exceptions and results *)

(** The classes of exception the program can meet.  All are subclasses
    of [Exception], which is what the last handler of
    [classify_ticket] catches; an interrupt of the process
    ([KeyboardInterrupt], [SystemExit]) is not a failure of a call and
    is not modelled. *)
Inductive exn_class :=
  | KeyError | IndexError | AttributeError | ValueError
  | JSONDecodeError    (* a subclass of ValueError *)
  | OtherError.        (* any other subclass of Exception *)

(** A raised exception: its class and [str(e)]. *)
Record exn := Exn { exn_class_of : exn_class; exn_str : str }.

Inductive res (A : Type) :=
  | Ret (a : A)
  | Raise (e : exn).
Arguments Ret {A} a.
Arguments Raise {A} e.

Definition res_bind {A B} (m : res A) (k : A → res B) : res B :=
  match m with
  | Ret a => k a
  | Raise e => Raise e
  end.

Notation "'let*' x ':=' m 'in' k" := (res_bind m (λ x, k))
  (at level 10, x name, m at level 100, k at level 200, only parsing).

(** [l[i]] for a non-negative literal index. *)
Definition getidx {A} (l : list A) (i : nat) : res A :=
  match l !! i with
  | Some x => Ret x
  | None => Raise (Exn IndexError (u "list index out of range"))
  end.

(** ** Response extraction ([classify_ticket], the two branches that
    remove a markdown fence) *)

Definition fence : str := u "```".
Definition fence_json : str := u "```json".

Definition strip_fences (response_text : str) : res str :=
  if py_in fence_json response_text then
    let* a := getidx (split fence_json response_text) 1 in
    let* b := getidx (split fence a) 0 in
    Ret (strip b)
  else if py_in fence response_text then
    let* a := getidx (split fence response_text) 1 in
    let* b := getidx (split fence a) 0 in
    Ret (strip b)
  else Ret response_text.

(** ** Python values *)

(** The values that travel through the contract: what [json.loads]
    returns, what a ticket holds, what a result dictionary holds.  A
    float is kept as a numeric literal [lit] that denotes it
    ([float(lit)]); the contract never computes on it.  A decoded JSON
    object keeps the order of its members. *)
Inductive pyval :=
  | PNone
  | PBool (b : bool)
  | PInt (z : Z)
  | PFloat (lit : str)
  | PStr (s : str)
  | PList (l : list pyval)
  | PDict (kvs : list (str * pyval)).

(** The number a run of decimal digits writes. *)
Definition digits_value (s : str) : Z :=
  fold_left (λ acc (c : N), 10 * acc + (Z.of_N c - 48))%Z s 0%Z.

Definition is_decimal_digit (c : N) : bool := ((48 <=? c) && (c <=? 57))%N.

(** [float(lit) != 0.0] for the literal of a float.  The literal
    writes [m * 10 ^ e] with [m] the digits of its mantissa and [e]
    its exponent less the number of digits of its fraction; [float]
    rounds it to the nearest double, ties to even, so that it is zero
    when [m] is zero and also when the number underflows: when it is
    not above [2 ^ -1075], half of the least positive double.  The
    constants [NaN] and [Infinity] are not zero. *)
Definition float_nonzero (lit : str) : bool :=
  let '(mantissa, exponent) :=
    match find (u "e") lit, find (u "E") lit with
    | Some i, _ | None, Some i => (take i lit, drop (S i) lit)
    | None, None => (lit, [])
    end in
  if existsb (λ c : N, negb (is_decimal_digit c || (c =? 46) || (c =? 45))%N) mantissa
  then true
  else
    let m := digits_value (List.filter is_decimal_digit mantissa) in
    let fraction :=
      match find (u ".") mantissa with
      | Some i => length mantissa - S i
      | None => 0
      end in
    let written :=
      match exponent with
      | 45%N :: digits => (- digits_value digits)%Z
      | 43%N :: digits => digits_value digits
      | digits => digits_value digits
      end in
    let e := (written - Z.of_nat fraction)%Z in
    if (m =? 0)%Z then false
    else if (0 <=? e)%Z then true
    else (10 ^ (- e) <? m * 2 ^ 1075)%Z.

(** Truth value of an object, as [if x] tests it. *)
Definition py_truthy (v : pyval) : bool :=
  match v with
  | PNone => false
  | PBool b => b
  | PInt z => negb (z =? 0)%Z
  | PFloat lit => float_nonzero lit
  | PStr s => negb (bool_decide (s = []))
  | PList l => negb (bool_decide (length l = 0))
  | PDict kvs => negb (bool_decide (length kvs = 0))
  end.

(** [d[k]] on a dictionary with string keys; [str(KeyError(k))] is the
    [repr] of the key, which for the plain keys of this program is the
    key between single quotes. *)
Definition getitem (d : gmap str pyval) (k : str) : res pyval :=
  match d !! k with
  | Some v => Ret v
  | None => Raise (Exn KeyError (u "'" ++ k ++ u "'"))
  end.

(** [str(n)] for a count. *)
Definition str_of_nat (n : nat) : str := u (pretty n).

(** ** The collaborators *)

(** [genai.GenerativeModel(name)], under the key given to
    [genai.configure]. *)
Record GenerativeModel := { model_name : str; api_key : str }.

(** The object [generate_content] returns; [text] is the outcome of
    reading the attribute [response.text], which raises when the
    attribute is missing or the reply holds no text. *)
Record Response := { text : res str }.

(** What the program calls and does not define: the remote model (its
    reply may depend on the prompts it was sent before), [json.loads],
    and the built-in [format] that an f-string applies to a value. *)
Class External := {
  generate_content : GenerativeModel → list str → str → res Response;
  json_loads : str → res pyval;
  py_format : pyval → str;
}.

(** ** Effects: the prompts sent to the remote model and the text
    printed, in order *)

Record world := World { sent : list str; stdout : list str }.

Definition M (A : Type) : Type := world → res A * world.

Definition ret {A} (a : A) : M A := λ w, (Ret a, w).

Definition bind {A B} (m : M A) (k : A → M B) : M B :=
  λ w, match m w with
       | (Ret a, w') => k a w'
       | (Raise e, w') => (Raise e, w')
       end.

Notation "'let!' x ':=' m 'in' k" := (bind m (λ x, k))
  (at level 10, x name, m at level 100, k at level 200, only parsing).

(** A pure step that may raise. *)
Definition lift {A} (r : res A) : M A := λ w, (r, w).

(** [print(s, end=e)] *)
Definition print (s e : str) : M unit :=
  λ w, (Ret tt, World (sent w) (stdout w ++ [s ++ e])).

Definition nl : str := [10%N].

(** One request to the remote model; the prompt is recorded. *)
Definition call_model `{External} (m : GenerativeModel) (prompt : str)
  : M (res Response) :=
  λ w, (Ret (generate_content m (sent w) prompt),
        World (sent w ++ [prompt]) (stdout w)).

(** ** [AgentClassifier] *)

Record AgentClassifier := { model : GenerativeModel }.

Definition os_getenv (env : gmap str str) (k : str) : option str := env !! k.

(** [not api_key] for the value [os.getenv] returns: [None] and the
    empty string are false values. *)
Definition not_api_key (api_key : option str) : bool :=
  match api_key with
  | None => true
  | Some k => bool_decide (k = [])
  end.

(** [AgentClassifier.__init__] *)
Definition AgentClassifier_init (env : gmap str str) : res AgentClassifier :=
  let api_key := os_getenv env (u "GEMINI_API_KEY") in
  if not_api_key api_key then
    Raise (Exn ValueError (u "GEMINI_API_KEY not found in .env file"))
  else
    Ret {| model := {| model_name := u "gemini-2.0-flash-exp";
                       api_key := default [] api_key |} |}.

(** [AgentClassifier._build_system_prompt] *)
Definition build_system_prompt : str := unlines [
    q "You are a customer support ticket classification agent for FlowTask, a project management SaaS platform.";
    q "";
    q "CLASSIFICATION RULES (Based on Phase 2 Optimization):";
    q "";
    q "1. CUSTOMER TIER TRIGGERS:";
    q "   - Enterprise customers: ALWAYS escalate (regardless of issue)";
    q "   - Pro customers: Evaluate based on other criteria";
    q "";
    q "2. SECURITY TRIGGERS (ALWAYS escalate):";
    q "   - Login/password issues with urgency";
    q "   - Account access problems";
    q "   - Any credential-related requests";
    q "";
    q "3. RISK TRIGGERS (ALWAYS escalate):";
    q "   - Churn threats: mentions of ~cancel~, ~switching~, ~competitor~";
    q "   - Legal language: ~lawyer~, ~lawsuit~, ~legal action~";
    q "   - Angry/hostile sentiment";
    q "   - Financial disputes or refund requests";
    q "";
    q "4. TECHNICAL TRIGGERS (ALWAYS escalate):";
    q "   - Bugs affecting operations for >24 hours";
    q "   - Data loss or export failures";
    q "   - Performance degradation";
    q "";
    q "5. CAN RESOLVE AUTONOMOUSLY:";
    q "   - Simple billing inquiries (invoice requests)";
    q "   - Feature requests (log and acknowledge, don't escalate)";
    q "   - How-to questions with clear answers";
    q "   - Known system behaviors";
    q "";
    q "OUTPUT FORMAT:";
    q "Respond with ONLY valid JSON in this exact format:";
    q "{";
    q "  ~category~: ~BILLING|TECHNICAL|ACCOUNT|FEATURE_REQUEST|CHURN~,";
    q "  ~priority~: ~LOW|MEDIUM|HIGH|URGENT~,";
    q "  ~should_escalate~: true or false,";
    q "  ~escalate_to~: ~SUPPORT_TEAM|ACCOUNT_MANAGER|ENGINEERING|BILLING~ or null,";
    q "  ~reasoning~: ~Brief explanation of classification decision~,";
    q "  ~suggested_tags~: [~tag1~, ~tag2~, ~tag3~],";
    q "  ~confidence~: 0.0 to 1.0";
    q "}";
    q "";
    q "CRITICAL: Output ONLY the JSON object. No markdown formatting, no other text before or after."
  ].

(** The f-string of [classify_ticket]: the six fields are read in this
    order, and the first missing one raises. *)
Definition full_prompt `{External} (ticket : gmap str pyval) : res str :=
  let* f_id := getitem ticket (u "id") in
  let* f_subject := getitem ticket (u "subject") in
  let* f_description := getitem ticket (u "description") in
  let* f_customer_email := getitem ticket (u "customer_email") in
  let* f_customer_tier := getitem ticket (u "customer_tier") in
  let* f_created_at := getitem ticket (u "created_at") in
  Ret (build_system_prompt
       ++ nl ++ nl ++ u "Now classify this customer support ticket:"
       ++ nl ++ nl ++ u "Ticket ID: " ++ py_format f_id
       ++ nl ++ u "Subject: " ++ py_format f_subject
       ++ nl ++ u "Description: " ++ py_format f_description
       ++ nl ++ u "Customer Email: " ++ py_format f_customer_email
       ++ nl ++ u "Customer Tier: " ++ py_format f_customer_tier
       ++ nl ++ u "Created: " ++ py_format f_created_at
       ++ nl ++ nl ++ u "Provide classification in JSON format.").

(** The body of the [try] of [classify_ticket].  Beside its outcome it
    gives the binding of the local variable [response_text] at the
    moment the body ended ([None]: not bound yet), which the first
    handler reads. *)
Definition classify_try `{External} (self : AgentClassifier)
    (ticket : gmap str pyval) (prompt : str)
  : M (option str * res (gmap str pyval)) :=
  let! response := call_model (model self) prompt in
  ret match response with
      | Raise e => (None, Raise e)
      | Ret response =>
          match text response with
          | Raise e => (None, Raise e)
          | Ret t =>
              let response_text := strip t in
              match strip_fences response_text with
              | Raise e => (Some response_text, Raise e)
              | Ret response_text =>
                  (Some response_text,
                   let* classification := json_loads response_text in
                   let* ticket_id := getitem ticket (u "id") in
                   Ret ({[ u "success" := PBool true;
                           u "ticket_id" := ticket_id;
                           u "classification" := classification ]}
                        : gmap str pyval))
              end
          end
      end.

(** [AgentClassifier.classify_ticket] *)
Definition classify_ticket `{External} (self : AgentClassifier)
    (ticket : gmap str pyval) : M (gmap str pyval) :=
  let! prompt := lift (full_prompt ticket) in
  let! body := classify_try self ticket prompt in
  match body with
  | (_, Ret result) => ret result
  | (response_text, Raise e) =>
      match exn_class_of e with
      | JSONDecodeError =>
          let! ticket_id := lift (getitem ticket (u "id")) in
          ret {[ u "success" := PBool false;
                 u "ticket_id" := ticket_id;
                 u "error" := PStr (u "Failed to parse JSON response: " ++ exn_str e);
                 u "raw_response" := match response_text with
                                     | Some t => PStr t
                                     | None => PNone
                                     end ]}
      | _ =>
          let! ticket_id := lift (getitem ticket (u "id")) in
          ret {[ u "success" := PBool false;
                 u "ticket_id" := ticket_id;
                 u "error" := PStr (u "API error: " ++ exn_str e) ]}
      end
  end.

(** [AgentClassifier.process_batch]: the body of the [for] loop, with
    [i] the counter of [enumerate(tickets, 1)]. *)
Fixpoint batch_loop `{External} (self : AgentClassifier) (total i : nat)
    (tickets results : list (gmap str pyval)) : M (list (gmap str pyval)) :=
  match tickets with
  | [] => ret results
  | ticket :: rest =>
      let! ticket_id := lift (getitem ticket (u "id")) in
      let! _ := print (u "[" ++ str_of_nat i ++ u "/" ++ str_of_nat total
                       ++ u "] Processing " ++ py_format ticket_id ++ u "... ") [] in
      let! result := classify_ticket self ticket in
      let! ok := lift (getitem result (u "success")) in
      let! _ := (if py_truthy ok then print (10003%N :: u " SUCCESS") nl
                 else let! error := lift (getitem result (u "error")) in
                      print (10007%N :: u " FAILED: " ++ py_format error) nl) in
      batch_loop self total (S i) rest (results ++ [result])
  end.

(** [sum(1 for r in results if r['success'])] *)
Fixpoint count_success (results : list (gmap str pyval)) : res nat :=
  match results with
  | [] => Ret 0
  | r :: rest =>
      let* ok := getitem r (u "success") in
      let* n := count_success rest in
      Ret ((if py_truthy ok then 1 else 0) + n)
  end.

(** ['='*80] *)
Definition rule : str := replicate 80 61%N.

Definition summary_line (successful total : nat) : str :=
  u "SUMMARY: " ++ str_of_nat successful ++ u "/" ++ str_of_nat total
  ++ u " tickets classified successfully".

Definition process_batch `{External} (self : AgentClassifier)
    (tickets : list (gmap str pyval)) : M (list (gmap str pyval)) :=
  let results := [] in
  let total := length tickets in
  let! _ := print (nl ++ rule) nl in
  let! _ := print (u "PROCESSING " ++ str_of_nat total ++ u " TICKETS WITH GEMINI") nl in
  let! _ := print (rule ++ nl) nl in
  let! results := batch_loop self total 1 tickets results in
  let! successful := lift (count_success results) in
  let! _ := print (nl ++ rule) nl in
  let! _ := print (summary_line successful total) nl in
  let! _ := print (rule ++ nl) nl in
  ret results.

(** ** [app.py]: the classifier built once at start-up, and the routes
    that depend on it *)

(** [classifier = AgentClassifier()], or [None] when that raises. *)
Definition app_classifier (env : gmap str str) : option AgentClassifier :=
  match AgentClassifier_init env with
  | Ret c => Some c
  | Raise _ => None
  end.

(** The route [/classify]: the JSON body and the HTTP status. *)
Definition classify_route `{External} (classifier : option AgentClassifier)
    (ticket_data : gmap str pyval) : M (gmap str pyval * nat) :=
  match classifier with
  | None =>
      ret ({[ u "success" := PBool false;
              u "error" := PStr (u "Classifier not initialized") ]}, 500)
  | Some c =>
      let! result := classify_ticket c ticket_data in
      ret (result, 200)
  end.

(** The route [/health]. *)
Definition health (classifier : option AgentClassifier) : gmap str pyval :=
  {[ u "status" := PStr (u "healthy");
     u "classifier_ready" := PBool (bool_decide (is_Some classifier)) ]}.

(** ** The JSON codec

    [Json.loads] follows CPython's decoder ([json.loads] with its
    default arguments, the scanner of [_json.c] as of Python 3.12) and
    [Json.dumps] its encoder ([json.dumps] with its default
    arguments).  The statements about [classify_ticket] quantify over
    every decoder; this one is what the round trip of a classification
    is stated with, and what the worked examples run.  A float is read
    into, and written from, its literal. *)
Module Json.

Inductive scan (A : Type) :=
  | Ok (a : A) (pos : nat) (rest : str)
  | Err (msg : str) (pos : nat).
Arguments Ok {A} a pos rest.
Arguments Err {A} msg pos.

Definition is_ws (c : N) : bool :=
  ((c =? 32) || (c =? 9) || (c =? 10) || (c =? 13))%N.

Fixpoint skip_ws (pos : nat) (s : str) : nat * str :=
  match s with
  | c :: s' => if is_ws c then skip_ws (S pos) s' else (pos, s)
  | [] => (pos, [])
  end.

Definition is_digit (c : N) : bool := ((48 <=? c) && (c <=? 57))%N.

Definition hexval (c : N) : option N :=
  if is_digit c then Some (c - 48)%N
  else if ((97 <=? c) && (c <=? 102))%N then Some (c - 87)%N
  else if ((65 <=? c) && (c <=? 70))%N then Some (c - 55)%N
  else None.

Definition hex4 (a b c d : N) : option N :=
  a ← hexval a; b ← hexval b; c ← hexval c; d ← hexval d;
  Some (((a * 16 + b) * 16 + c) * 16 + d)%N.

(** The character a one-letter escape stands for. *)
Definition unescape (c : N) : option N :=
  (if c =? 34 then Some 34 else if c =? 92 then Some 92
   else if c =? 47 then Some 47 else if c =? 98 then Some 8
   else if c =? 102 then Some 12 else if c =? 110 then Some 10
   else if c =? 114 then Some 13 else if c =? 116 then Some 9
   else None)%N.

Definition is_high_surrogate (c : N) : bool := ((55296 <=? c) && (c <=? 56319))%N.
Definition is_low_surrogate (c : N) : bool := ((56320 <=? c) && (c <=? 57343))%N.

(** [scanstring]: [s] starts after the opening quote, which stands at
    index [begin]; [pos] is the index of the head of [s]; [acc] holds
    the characters read so far, last first. *)
Fixpoint scanstring (begin pos : nat) (acc s : str) {struct s} : scan str :=
  match s with
  | [] => Err (u "Unterminated string starting at") begin
  | c :: s1 =>
      if (c =? 34)%N then Ok (reverse acc) (S pos) s1
      else if (c =? 92)%N then
        match s1 with
        | [] => Err (u "Unterminated string starting at") begin
        | e :: s2 =>
            if (e =? 117)%N then
              match s2 with
              | h1 :: h2 :: h3 :: h4 :: ((_ :: _) as s3) =>
                  match hex4 h1 h2 h3 h4 with
                  | None => Err (u "Invalid \uXXXX escape") (S pos)
                  | Some c1 =>
                      match s3 with
                      | b :: v :: k1 :: k2 :: k3 :: k4 :: ((_ :: _) as s4) =>
                          if is_high_surrogate c1 && (b =? 92)%N && (v =? 117)%N then
                            match hex4 k1 k2 k3 k4 with
                            | None => Err (u "Invalid \uXXXX escape") (pos + 7)
                            | Some c2 =>
                                if is_low_surrogate c2 then
                                  scanstring begin (pos + 12)
                                    ((65536 + (c1 - 55296) * 1024 + (c2 - 56320))%N :: acc) s4
                                else scanstring begin (pos + 6) (c1 :: acc) s3
                            end
                          else scanstring begin (pos + 6) (c1 :: acc) s3
                      | _ => scanstring begin (pos + 6) (c1 :: acc) s3
                      end
                  end
              | _ => Err (u "Invalid \uXXXX escape") (S pos)
              end
            else
              match unescape e with
              | Some c' => scanstring begin (pos + 2) (c' :: acc) s2
              | None => Err (u "Invalid \escape") pos
              end
        end
      else if (c <=? 31)%N then Err (u "Invalid control character at") pos
      else scanstring begin (S pos) (c :: acc) s1
  end.

Fixpoint span_digits (s : str) : str * str :=
  match s with
  | c :: s' =>
      if is_digit c then let '(ds, r) := span_digits s' in (c :: ds, r)
      else ([], s)
  | [] => ([], [])
  end.

(** [int(literal)] for an optional minus sign and decimal digits. *)
Definition int_of_literal (lit : str) : Z :=
  let value ds := fold_left (λ (a : Z) (c : N), 10 * a + Z.of_N (c - 48))%Z ds 0%Z in
  match lit with
  | 45%N :: ds => (- value ds)%Z
  | ds => value ds
  end.

(** The integer digits at the head of [s]: one zero, or a digit from
    1 to 9 and the digits after it. *)
Definition scan_integer (s : str) : option (str * str) :=
  match s with
  | [] => None
  | c :: s' =>
      if negb (is_digit c) then None
      else if (c =? 48)%N then Some ([c], s')
      else let '(ds, r) := span_digits s' in Some (c :: ds, r)
  end.

(** A point and at least one digit, if they come next. *)
Definition scan_fraction (s : str) : str * str :=
  match s with
  | c :: d :: s' =>
      if (c =? 46)%N && is_digit d then
        let '(ds, r) := span_digits s' in (c :: d :: ds, r)
      else ([], s)
  | _ => ([], s)
  end.

(** An exponent, if one comes next: the letter, an optional sign and
    at least one digit; without a digit nothing is taken. *)
Definition scan_exponent (s : str) : str * str :=
  match s with
  | e :: s' =>
      if ((e =? 101) || (e =? 69))%N then
        let '(esign, s'') :=
          match s' with
          | x :: r => if ((x =? 45) || (x =? 43))%N then ([x], r) else ([], s')
          | [] => ([], s')
          end in
        match span_digits s'' with
        | ([], _) => ([], s)
        | (ds, r) => (e :: esign ++ ds, r)
        end
      else ([], s)
  | [] => ([], s)
  end.

(** The number at the head of [s], as the scanner matches it: the
    value, and what follows it.  [None]: no number starts here. *)
Definition match_number (pos : nat) (s : str) : option (pyval * nat * str) :=
  let '(sign, s1) :=
    match s with
    | c :: s' => if (c =? 45)%N then ([c], s') else ([], s)
    | [] => ([], s)
    end in
  match scan_integer s1 with
  | None => None
  | Some (int_digits, s3) =>
      let '(frac, s4) := scan_fraction s3 in
      let '(expo, s5) := scan_exponent s4 in
      let lit := sign ++ int_digits ++ frac ++ expo in
      Some (match frac, expo with
            | [], [] => PInt (int_of_literal lit)
            | _, _ => PFloat lit
            end, pos + length lit, s5)
  end.

(** [d[key] = value] on the members read so far. *)
Fixpoint dict_set (kvs : list (str * pyval)) (key : str) (value : pyval)
  : list (str * pyval) :=
  match kvs with
  | [] => [(key, value)]
  | (k, v) :: kvs' =>
      if bool_decide (k = key) then (k, value) :: kvs'
      else (k, v) :: dict_set kvs' key value
  end.

(** The named constants of the scanner, tried in its order. *)
Definition constants : list (string * pyval) :=
  [ ("null", PNone); ("true", PBool true); ("false", PBool false);
    ("NaN", PFloat (u "NaN")); ("Infinity", PFloat (u "Infinity"));
    ("-Infinity", PFloat (u "-Infinity")) ]%string.

Fixpoint scan_constant (cs : list (string * pyval)) (pos : nat) (s : str)
  : option (pyval * nat * str) :=
  match cs with
  | [] => None
  | (name, v) :: cs' =>
      if startswith (u name) s
      then Some (v, pos + length (u name), drop (length (u name)) s)
      else scan_constant cs' pos s
  end.

Definition expecting_value {A} (pos : nat) : scan A := Err (u "Expecting value") pos.

(** The answer of a scan that was given too little fuel. *)
Definition out_of_fuel {A} (pos : nat) : scan A :=
  Err (u "maximum recursion depth exceeded") pos.

Definition starved {A} (r : scan A) : bool :=
  match r with
  | Err msg _ => bool_decide (msg = u "maximum recursion depth exceeded")
  | Ok _ _ _ => false
  end.

(** [scan_once], with the loops of an array and of an object.  [fuel]
    bounds the nesting; [loads] gives enough of it for any text
    ([JsonTotal.loads_fuel_enough]). *)
Fixpoint scan_once (fuel : nat) (pos : nat) (s : str) {struct fuel} : scan pyval :=
  match fuel with
  | 0 => out_of_fuel pos
  | S fuel =>
      match s with
      | [] => expecting_value pos
      | c :: s1 =>
          if (c =? 34)%N then
            match scanstring pos (S pos) [] s1 with
            | Ok v p r => Ok (PStr v) p r
            | Err m p => Err m p
            end
          else if (c =? 123)%N then
            let '(p, r) := skip_ws (S pos) s1 in
            match r with
            | 125%N :: r' => Ok (PDict []) (S p) r'
            | _ => parse_members fuel [] p r
            end
          else if (c =? 91)%N then
            let '(p, r) := skip_ws (S pos) s1 in
            match r with
            | 93%N :: r' => Ok (PList []) (S p) r'
            | _ => parse_items fuel [] p r
            end
          else
            match scan_constant constants pos s with
            | Some (v, p, r) => Ok v p r
            | None =>
                match match_number pos s with
                | Some (v, p, r) => Ok v p r
                | None => expecting_value pos
                end
            end
      end
  end
with parse_items (fuel : nat) (acc : list pyval) (pos : nat) (s : str)
    {struct fuel} : scan pyval :=
  match fuel with
  | 0 => out_of_fuel pos
  | S fuel =>
      match scan_once fuel pos s with
      | Err m p => Err m p
      | Ok v p r =>
          let '(p, r) := skip_ws p r in
          match r with
          | 93%N :: r' => Ok (PList (reverse (v :: acc))) (S p) r'
          | 44%N :: r' =>
              let '(p, r) := skip_ws (S p) r' in
              parse_items fuel (v :: acc) p r
          | _ => Err (u "Expecting ',' delimiter") p
          end
      end
  end
with parse_members (fuel : nat) (acc : list (str * pyval)) (pos : nat) (s : str)
    {struct fuel} : scan pyval :=
  match fuel with
  | 0 => out_of_fuel pos
  | S fuel =>
      match s with
      | 34%N :: s1 =>
          match scanstring pos (S pos) [] s1 with
          | Err m p => Err m p
          | Ok key p r =>
              let '(p, r) := skip_ws p r in
              match r with
              | 58%N :: r' =>
                  let '(p, r) := skip_ws (S p) r' in
                  match scan_once fuel p r with
                  | Err m p => Err m p
                  | Ok v p r =>
                      let '(p, r) := skip_ws p r in
                      match r with
                      | 125%N :: r' => Ok (PDict (dict_set acc key v)) (S p) r'
                      | 44%N :: r' =>
                          let '(p, r) := skip_ws (S p) r' in
                          parse_members fuel (dict_set acc key v) p r
                      | _ => Err (u "Expecting ',' delimiter") p
                      end
                  end
              | _ => Err (u "Expecting ':' delimiter") p
              end
          end
      | _ => Err (u "Expecting property name enclosed in double quotes") pos
      end
  end.

(** [str(e)] of a [JSONDecodeError]: the message with the line, the
    column and the index of the place. *)
Definition errmsg (msg doc : str) (pos : nat) : str :=
  let before := take pos doc in
  let lineno := S (length (filter (λ c : N, c = 10%N) before)) in
  let colno :=
    match find nl (reverse before) with
    | Some i => i
    | None => pos
    end in
  msg ++ u ": line " ++ str_of_nat lineno ++ u " column " ++ str_of_nat (S colno)
  ++ u " (char " ++ str_of_nat pos ++ u ")".

Definition decode_error {A} (msg doc : str) (pos : nat) : res A :=
  Raise (Exn JSONDecodeError (errmsg msg doc pos)).

(** [json.loads(s)] for a [str]. *)
Definition loads (s : str) : res pyval :=
  if startswith [65279%N] s then
    decode_error (u "Unexpected UTF-8 BOM (decode using utf-8-sig)") s 0
  else
    let '(p, r) := skip_ws 0 s in
    match scan_once (2 * length s + 2) p r with
    | Err m p => decode_error m s p
    | Ok v p r =>
        let '(p, r) := skip_ws p r in
        match r with
        | [] => Ret v
        | _ => decode_error (u "Extra data") s p
        end
    end.

Definition hexdigit (n : N) : N := (if n <? 10 then 48 + n else 87 + n)%N.

(** ['\\u{0:04x}'.format(n)] *)
Definition u_escape (n : N) : str :=
  [92; 117; hexdigit (n / 4096 mod 16); hexdigit (n / 256 mod 16);
   hexdigit (n / 16 mod 16); hexdigit (n mod 16)]%N.

(** One character of [encode_basestring_ascii]. *)
Definition escape_char (c : N) : str :=
  (if c =? 34 then [92; 34] else if c =? 92 then [92; 92]
   else if c =? 8 then [92; 98] else if c =? 12 then [92; 102]
   else if c =? 10 then [92; 110] else if c =? 13 then [92; 114]
   else if c =? 9 then [92; 116]
   else if (32 <=? c) && (c <=? 126) then [c]
   else if c <? 65536 then u_escape c
   else u_escape (55296 + (c - 65536) / 1024 mod 1024)
        ++ u_escape (56320 + (c - 65536) mod 1024))%N.

Definition dumps_str (s : str) : str :=
  [34%N] ++ concat (escape_char <$> s) ++ [34%N].

(** [', '.join(parts)] *)
Fixpoint join (sep : str) (parts : list str) : str :=
  match parts with
  | [] => []
  | [p] => p
  | p :: ps => p ++ sep ++ join sep ps
  end.

(** [json.dumps(v)] *)
Fixpoint dumps (v : pyval) : str :=
  match v with
  | PNone => u "null"
  | PBool true => u "true"
  | PBool false => u "false"
  | PInt z => u (pretty z)
  | PFloat lit => lit
  | PStr s => dumps_str s
  | PList l => u "[" ++ join (u ", ") (map dumps l) ++ u "]"
  | PDict kvs =>
      u "{" ++ join (u ", ")
                 (map (λ kv : str * pyval, dumps_str kv.1 ++ u ": " ++ dumps kv.2) kvs)
      ++ u "}"
  end.

(** What is left after a successful scan is shorter than the text by
    at least [k]. *)
Definition leaves {A} (r : scan A) (s : str) (k : nat) : Prop :=
  match r with
  | Ok _ _ rest => length rest + k ≤ length s
  | Err _ _ => True
  end.

(** A Unicode scalar value: a code point that is not a surrogate. *)
Definition is_scalar (c : N) : bool :=
  ((c <? 55296) || (57344 <=? c) && (c <? 1114112))%N.

(** A delimiter: what follows a value inside an array or an object. *)
Definition is_delim (c : N) : bool := ((c =? 44) || (c =? 125) || (c =? 93))%N.

(** [lit] is a number with a fraction or an exponent, and nothing else. *)
Definition is_float_literal (lit : str) : bool :=
  match match_number 0 lit with
  | Some (PFloat _, _, []) => true
  | _ => false
  end.

(** A text that does not begin with blank space. *)
Definition solid (s : str) : Prop := ∀ q, skip_ws q s = (q, s).

(** [v] is read back from its text when [rest] follows it. *)
Definition reads (fuel : nat) (v : pyval) (rest : str) : Prop :=
  solid (dumps v ++ rest)
  ∧ ∀ q, ∃ p, scan_once fuel q (dumps v ++ rest) = Ok v p rest.

End Json.

(** ** [print_result] *)

(** [type(v).__name__] *)
Definition type_name (v : pyval) : str :=
  match v with
  | PNone => u "NoneType"
  | PBool _ => u "bool"
  | PInt _ => u "int"
  | PFloat _ => u "float"
  | PStr _ => u "str"
  | PList _ => u "list"
  | PDict _ => u "dict"
  end.

(** The member of a decoded object under [key]. *)
Fixpoint dict_get (kvs : list (str * pyval)) (key : str) : option pyval :=
  match kvs with
  | [] => None
  | (k, v) :: kvs' => if bool_decide (k = key) then Some v else dict_get kvs' key
  end.

(** [c[key]] for a string [key] on any value.  On what is not a
    dictionary Python raises [TypeError], a class the handlers of this
    program do not tell from the other subclasses of [Exception]. *)
Definition subscript (c : pyval) (key : str) : res pyval :=
  match c with
  | PDict kvs =>
      match dict_get kvs key with
      | Some v => Ret v
      | None => Raise (Exn KeyError (u "'" ++ key ++ u "'"))
      end
  | PStr _ => Raise (Exn OtherError (u "string indices must be integers, not 'str'"))
  | PList _ =>
      Raise (Exn OtherError (u "list indices must be integers or slices, not str"))
  | _ => Raise (Exn OtherError (u "'" ++ type_name c ++ u "' object is not subscriptable"))
  end.

(** [c.get(key, default)] *)
Definition py_get (c : pyval) (key : str) (dflt : pyval) : res pyval :=
  match c with
  | PDict kvs => Ret (default dflt (dict_get kvs key))
  | _ => Raise (Exn AttributeError
                  (u "'" ++ type_name c ++ u "' object has no attribute 'get'"))
  end.

(** The items of [sep.join(...)], which must all be strings. *)
Fixpoint join_items (i : nat) (items : list pyval) : res (list str) :=
  match items with
  | [] => Ret []
  | PStr s :: rest =>
      let* parts := join_items (S i) rest in
      Ret (s :: parts)
  | v :: _ =>
      Raise (Exn OtherError (u "sequence item " ++ str_of_nat i
                             ++ u ": expected str instance, " ++ type_name v
                             ++ u " found"))
  end.

(** [sep.join(v)]: a list gives its items, a string its characters, a
    dictionary its keys. *)
Definition py_join (sep : str) (v : pyval) : res str :=
  match v with
  | PList items =>
      let* parts := join_items 0 items in
      Ret (Json.join sep parts)
  | PStr s => Ret (Json.join sep ((λ c, [c]) <$> s))
  | PDict kvs => Ret (Json.join sep (kvs.*1))
  | _ => Raise (Exn OtherError (u "can only join an iterable"))
  end.

(** [format(v, '.0%')], the one formatting with a specification in the
    program; it raises on what is not a number. *)
Class Formatting := { format_percent : pyval → res str }.

(** [print(s)] *)
Definition println (s : str) : M unit := print s nl.

Definition print_result `{External} `{Formatting} (result : gmap str pyval)
  : M unit :=
  let! ok := lift (getitem result (u "success")) in
  if negb (py_truthy ok) then
    let! ticket_id := lift (getitem result (u "ticket_id")) in
    let! error := lift (getitem result (u "error")) in
    println (10060%N :: u " " ++ py_format ticket_id
             ++ u " - ERROR: " ++ py_format error)
  else
    let! c := lift (getitem result (u "classification")) in
    let! _ := println (nl ++ rule) in
    let! ticket_id := lift (getitem result (u "ticket_id")) in
    let! _ := println (10003%N :: u " " ++ py_format ticket_id) in
    let! _ := println rule in
    let! category := lift (subscript c (u "category")) in
    let! _ := println (128193%N :: u " Category:     " ++ py_format category) in
    let! priority := lift (subscript c (u "priority")) in
    let! _ := println (9889%N :: u " Priority:     " ++ py_format priority) in
    let! confidence := lift (let* v := py_get c (u "confidence") (PInt 0) in
                             format_percent v) in
    let! _ := println (127919%N :: u " Confidence:   " ++ confidence) in
    let! escalate := lift (subscript c (u "should_escalate")) in
    let! _ := (if py_truthy escalate then
                 let! escalate_to := lift (subscript c (u "escalate_to")) in
                 println (128680%N :: u " ESCALATE:     YES " ++ 8594%N :: u " "
                          ++ py_format escalate_to)
               else println (9989%N :: u " RESOLVE:      Handle autonomously")) in
    let! reasoning := lift (subscript c (u "reasoning")) in
    let! _ := println (128173%N :: u " Reasoning:    " ++ py_format reasoning) in
    let! tags := lift (let* v := subscript c (u "suggested_tags") in
                       py_join (u ", ") v) in
    let! _ := println (127991%N :: 65039%N :: u "  Tags:        " ++ tags) in
    println rule.

(** ** The file of tickets, [/process-batch] and the test mode *)

(** What opening [sample_tickets.json] and decoding it gives; when it
    can be read, the file holds an array of objects. *)
Inductive tickets_file :=
  | FileNotFound
  | FileError (e : exn)    (* any other failure to open or to decode *)
  | FileHolds (tickets : list (gmap str pyval)).

(** [str(e)] of the [FileNotFoundError] of [open]. *)
Definition file_not_found : exn :=
  Exn OtherError (u "[Errno 2] No such file or directory: 'sample_tickets.json'").

Definition load_tickets (file : tickets_file) : res (list (gmap str pyval)) :=
  match file with
  | FileNotFound => Raise file_not_found
  | FileError e => Raise e
  | FileHolds tickets => Ret tickets
  end.

(** [try: body except Exception as e: handler] *)
Definition try_except {A} (body : M A) (handler : exn → M A) : M A :=
  λ w, match body w with
       | (Ret a, w') => (Ret a, w')
       | (Raise e, w') => handler e w'
       end.

(** What a route hands to [jsonify]. *)
Inductive reply_body :=
  | JsonList (results : list (gmap str pyval))
  | JsonObject (d : gmap str pyval).

(** The route [/process-batch]: the JSON body and the HTTP status. *)
Definition process_batch_route `{External} (classifier : option AgentClassifier)
    (file : tickets_file) : M (reply_body * nat) :=
  match classifier with
  | None =>
      ret (JsonObject {[ u "success" := PBool false;
                         u "error" := PStr (u "Classifier not initialized") ]}, 500)
  | Some c =>
      try_except
        (let! tickets := lift (load_tickets file) in
         let! results := process_batch c tickets in
         ret (JsonList results, 200))
        (λ e, ret (JsonObject {[ u "success" := PBool false;
                                 u "error" := PStr (exn_str e) ]}, 500))
  end.

(** How the test mode ends when no exception escapes: at its last
    line, or in [exit(code)]. *)
Inductive exit_status :=
  | Finished
  | Exited (code : nat).

(** [for result in results: print_result(result)] *)
Fixpoint print_results `{External} `{Formatting}
    (results : list (gmap str pyval)) : M unit :=
  match results with
  | [] => ret tt
  | result :: rest =>
      let! _ := print_result result in
      print_results rest
  end.

(** The test mode of [agent_classifier.py], in the environment [env]. *)
Definition main `{External} `{Formatting} (env : gmap str str)
    (file : tickets_file) : M exit_status :=
  let! _ := println (nl ++ 129302%N
                     :: u " CS AGENT WORKFLOW ENGINE - Test Mode (Gemini)" ++ nl) in
  match file with
  | FileNotFound =>
      let! _ := println (10060%N :: u " Error: sample_tickets.json not found") in
      ret (Exited 1)
  | FileError e => lift (Raise e)
  | FileHolds tickets =>
      let! _ := println (10003%N :: u " Loaded " ++ str_of_nat (length tickets)
                         ++ u " sample tickets" ++ nl) in
      match AgentClassifier_init env with
      | Raise e =>
          match exn_class_of e with
          | ValueError | JSONDecodeError =>
              let! _ := println (10060%N :: u " Error: " ++ exn_str e) in
              let! _ := println (u "Make sure GEMINI_API_KEY is set in your .env file") in
              ret (Exited 1)
          | _ => lift (Raise e)
          end
      | Ret classifier =>
          let! _ := println (10003%N :: u " Agent classifier initialized with Gemini"
                             ++ nl) in
          let! results := process_batch classifier tickets in
          let! _ := print_results results in
          let! _ := println (nl ++ 9989%N
                             :: u " Test complete! Gemini API working perfectly."
                             ++ nl) in
          ret Finished
      end
  end.

(** ** Reference descriptions, to compare the code with *)

(** The part of [s] before the first occurrence of [sep] (all of [s]
    when there is none), and the part after it. *)
Definition before (sep s : str) : str :=
  match find sep s with
  | Some i => take i s
  | None => s
  end.

Definition after (sep s : str) : str :=
  match find sep s with
  | Some i => drop (i + length sep) s
  | None => []
  end.

(** The text [classify_ticket] gives to [json.loads] for the reply
    text [raw], described without [split]. *)
Definition parser_input (raw : str) : str :=
  let t := strip raw in
  if py_in fence_json t then
    strip (before fence (before fence_json (after fence_json t)))
  else if py_in fence t then strip (before fence (after fence t))
  else t.

(** The content between the first [opening] marker of [t] and the
    first closing fence after it; [None] when there is no such pair. *)
Definition fence_pair_content (opening t : str) : option str :=
  match find opening t with
  | None => None
  | Some i =>
      let rest := drop (i + length opening) t in
      match find fence rest with
      | None => None
      | Some j => Some (take j rest)
      end
  end.

(** The same text as the specification words it: the content between
    the first JSON-marked fence pair, else the content between the
    first generic fence pair, else the trimmed text. *)
Definition claimed_parser_input (raw : str) : str :=
  let t := strip raw in
  match fence_pair_content fence_json t with
  | Some content => content
  | None =>
      match fence_pair_content fence t with
      | Some content => content
      | None => t
      end
  end.

(** The six fields [classify_ticket] reads, in the order it reads them. *)
Definition required_fields : list str :=
  [u "id"; u "subject"; u "description"; u "customer_email";
   u "customer_tier"; u "created_at"].

Definition has_required_fields (ticket : gmap str pyval) : Prop :=
  Forall (λ k, is_Some (ticket !! k)) required_fields.

(** One [classify_ticket] per ticket, in order: what the loop of
    [process_batch] is compared with. *)
Fixpoint classify_each `{External} (self : AgentClassifier)
    (tickets : list (gmap str pyval)) : M (list (gmap str pyval)) :=
  match tickets with
  | [] => ret []
  | ticket :: rest =>
      let! result := classify_ticket self ticket in
      let! results := classify_each self rest in
      ret (result :: results)
  end.

(** [r['success']] is present and true. *)
Definition is_success (r : gmap str pyval) : bool :=
  match r !! u "success" with
  | Some v => py_truthy v
  | None => false
  end.

(** The three shapes of result [classify_ticket] builds. *)
Definition success_result (ticket_id classification : pyval) : gmap str pyval :=
  {[ u "success" := PBool true;
     u "ticket_id" := ticket_id;
     u "classification" := classification ]}.

Definition parse_failure (ticket_id : pyval) (message : str) (raw_response : pyval)
  : gmap str pyval :=
  {[ u "success" := PBool false;
     u "ticket_id" := ticket_id;
     u "error" := PStr (u "Failed to parse JSON response: " ++ message);
     u "raw_response" := raw_response ]}.

Definition api_failure (ticket_id : pyval) (message : str) : gmap str pyval :=
  {[ u "success" := PBool false;
     u "ticket_id" := ticket_id;
     u "error" := PStr (u "API error: " ++ message) ]}.

(** The result [classify_ticket] builds from one caught exception, given
    the binding of [response_text] at that moment. *)
Definition failure_result (ticket_id : pyval) (response_text : option str) (e : exn)
  : gmap str pyval :=
  match exn_class_of e with
  | JSONDecodeError =>
      parse_failure ticket_id (exn_str e) (from_option PStr PNone response_text)
  | _ => api_failure ticket_id (exn_str e)
  end.

(** The result of [classify_ticket] as a function of what the remote
    model answered. *)
Definition result_of `{External} (ticket_id : pyval) (answer : res Response)
  : gmap str pyval :=
  match answer with
  | Raise e => failure_result ticket_id None e
  | Ret response =>
      match text response with
      | Raise e => failure_result ticket_id None e
      | Ret raw =>
          match json_loads (parser_input raw) with
          | Ret classification => success_result ticket_id classification
          | Raise e => failure_result ticket_id (Some (parser_input raw)) e
          end
      end
  end.

(** The classification the prompt asks the remote model for. *)
Record Classification := {
  category : str;
  priority : str;
  should_escalate : bool;
  escalate_to : option str;
  reasoning : str;
  suggested_tags : list str;
  confidence : str;   (* the literal of a float *)
}.

(** The classification as the Python object [json.loads] yields. *)
Definition classification_object (c : Classification) : pyval :=
  PDict [ (u "category", PStr (category c));
          (u "priority", PStr (priority c));
          (u "should_escalate", PBool (should_escalate c));
          (u "escalate_to", from_option PStr PNone (escalate_to c));
          (u "reasoning", PStr (reasoning c));
          (u "suggested_tags", PList (PStr <$> suggested_tags c));
          (u "confidence", PFloat (confidence c)) ].

(** The texts of a classification are Unicode scalar values and its
    confidence is the literal of a finite float. *)
Definition well_formed (c : Classification) : bool :=
  forallb Json.is_scalar (category c) && forallb Json.is_scalar (priority c)
  && from_option (forallb Json.is_scalar) true (escalate_to c)
  && forallb Json.is_scalar (reasoning c)
  && forallb (forallb Json.is_scalar) (suggested_tags c)
  && Json.is_float_literal (confidence c).

(** What [process_batch] prints while it runs. *)
Definition progress_line `{External} (total i : nat) (ticket_id : pyval) : str :=
  u "[" ++ str_of_nat i ++ u "/" ++ str_of_nat total
  ++ u "] Processing " ++ py_format ticket_id ++ u "... ".

Definition outcome_line `{External} (result : gmap str pyval) : str :=
  if is_success result then (10003%N :: u " SUCCESS") ++ nl
  else (10007%N :: u " FAILED: "
        ++ py_format (default PNone (result !! u "error"))) ++ nl.

Fixpoint progress_output `{External} (total i : nat)
    (tickets results : list (gmap str pyval)) : list str :=
  match tickets, results with
  | ticket :: tickets, result :: results =>
      progress_line total i (default PNone (ticket !! u "id"))
      :: outcome_line result
      :: progress_output total (S i) tickets results
  | _, _ => []
  end.

Definition batch_header (total : nat) : list str :=
  [ (nl ++ rule) ++ nl;
    (u "PROCESSING " ++ str_of_nat total ++ u " TICKETS WITH GEMINI") ++ nl;
    (rule ++ nl) ++ nl ].

Definition batch_footer (successful total : nat) : list str :=
  [ (nl ++ rule) ++ nl;
    summary_line successful total ++ nl;
    (rule ++ nl) ++ nl ].

(** What [print_result] prints for a failure. *)
Definition error_line `{External} (ticket_id error : pyval) : str :=
  (10060%N :: u " " ++ py_format ticket_id ++ u " - ERROR: " ++ py_format error) ++ nl.

(** The first three lines of a success. *)
Definition success_head `{External} (ticket_id : pyval) : list str :=
  [ (nl ++ rule) ++ nl;
    (10003%N :: u " " ++ py_format ticket_id) ++ nl;
    rule ++ nl ].

(** The classifications [print_result] can print: objects that hold a
    category, a priority, a reasoning, tags that can be joined, a
    confidence that can be formatted when there is one, the escalation
    flag, and the team when the flag is set. *)
Definition printable `{Formatting} (c : pyval) : Prop :=
  ∃ kvs, c = PDict kvs
    ∧ is_Some (dict_get kvs (u "category"))
    ∧ is_Some (dict_get kvs (u "priority"))
    ∧ (∃ pct, format_percent (default (PInt 0) (dict_get kvs (u "confidence")))
              = Ret pct)
    ∧ (∃ escalate, dict_get kvs (u "should_escalate") = Some escalate
         ∧ (py_truthy escalate = true → is_Some (dict_get kvs (u "escalate_to"))))
    ∧ is_Some (dict_get kvs (u "reasoning"))
    ∧ ∃ tags joined, dict_get kvs (u "suggested_tags") = Some tags
                     ∧ py_join (u ", ") tags = Ret joined.




(** ** Collaborators for the worked examples *)

(** [format(v, '')] on the scalars.  (On a list or a dictionary, which
    no example formats, Python writes the [repr] of the members; that
    is left out here and the text is empty.) *)
Definition format_scalar (v : pyval) : str :=
  match v with
  | PNone => u "None"
  | PBool true => u "True"
  | PBool false => u "False"
  | PInt z => u (pretty z)
  | PFloat lit => lit
  | PStr s => s
  | PList _ | PDict _ => []
  end.

(** A remote model that answers its n-th request with the n-th entry
    of [replies], with [Json.loads] as decoder. *)
Definition scripted (replies : list (res Response)) : External :=
  {| generate_content := λ _ history _,
       default (Raise (Exn OtherError (u "connection refused")))
               (replies !! length history);
     json_loads := Json.loads;
     py_format := format_scalar |}.

Definition says (reply : str) : res Response := Ret {| text := Ret reply |}.

Definition sample_ticket : gmap str pyval :=
  {[ u "id" := PStr (u "TKT-001");
     u "subject" := PStr (u "Invoice request");
     u "description" := PStr (u "Please send the invoice for March.");
     u "customer_email" := PStr (u "ana@example.com");
     u "customer_tier" := PStr (u "Pro");
     u "created_at" := PStr (u "2024-03-01T10:00:00Z") ]}.

Definition sample_classifier : AgentClassifier :=
  {| model := {| model_name := u "gemini-2.0-flash-exp"; api_key := u "k-123" |} |}.

Definition w0 : world := World [] [].

Definition sample_classification : Classification :=
  {| category := u "BILLING";
     priority := u "LOW";
     should_escalate := false;
     escalate_to := Some (u "BILLING");
     reasoning := u "Simple invoice request";
     suggested_tags := [u "invoice"; u "billing"];
     confidence := u "0.9" |}.

(** A classification whose reasoning quotes a fence. *)
Definition fenced_classification : Classification :=
  {| category := u "TECHNICAL";
     priority := u "HIGH";
     should_escalate := true;
     escalate_to := Some (u "ENGINEERING");
     reasoning := u "Customer pasted ```Traceback``` from the export job";
     suggested_tags := [u "export"; u "bug"];
     confidence := u "0.8" |}.

(** Replies of the remote model used in the examples. *)

(** A classification inside a JSON-marked fence, as chat models
    usually send it. *)
Definition fenced_reply : str :=
  u "```json" ++ nl ++ u "{}" ++ nl ++ u "```".

(** A reply that was cut before the closing fence. *)
Definition unclosed_reply : str := u "```json" ++ nl ++ u "{}".

(** A fenced reply that is not JSON. *)
Definition fenced_apology : str :=
  u "```json" ++ nl ++ u "Sorry, I cannot help." ++ nl ++ u "```".

(** A reply that is a bare number. *)
Definition number_reply : str := u "42".

(** The prompt built for [sample_ticket]. *)
Definition sample_prompt : str :=
  match @full_prompt (scripted []) sample_ticket with
  | Ret prompt => prompt
  | Raise _ => []
  end.

(** A ticket without its subject. *)
Definition ticket_without_subject : gmap str pyval :=
  delete (u "subject") sample_ticket.

(** An environment in which the key is set, to the empty string. *)
Definition env_empty_key : gmap str str := {[ u "GEMINI_API_KEY" := [] ]}.

Definition env_with_key : gmap str str := {[ u "GEMINI_API_KEY" := u "k-123" ]}.

(** A failure of the transport. *)
Definition quota_error : exn := Exn OtherError (u "429 quota exceeded").

(** A reply that talks before its fenced classification. *)
Definition chatty_reply : str := u "Here is the classification: " ++ fenced_reply.

(** A failure of the client library to decode what the service sent. *)
Definition decode_error : exn :=
  Exn JSONDecodeError (u "Expecting value: line 1 column 1 (char 0)").

(** A ticket with a field the classifier does not know. *)
Definition ticket_with_note : gmap str pyval :=
  <[ u "internal_note" := PStr (u "VIP") ]> sample_ticket.

(** The result for [fenced_apology]. *)
Definition apology_result : gmap str pyval :=
  parse_failure (PStr (u "TKT-001")) (u "Expecting value: line 1 column 1 (char 0)")
    (PStr (u "Sorry, I cannot help.")).

(** A classification whose escalation flag is a float too small for a
    double, and which names no team. *)
Definition underflow_classification : pyval :=
  PDict [ (u "category", PStr (u "BILLING"));
          (u "priority", PStr (u "LOW"));
          (u "should_escalate", PFloat (u "1e-400"));
          (u "reasoning", PStr (u "Simple invoice request"));
          (u "suggested_tags", PList [PStr (u "invoice")]) ].

(** [format(v, '.0%')] on the values of the examples: booleans, small
    integers, and the float literals [0.d]. *)
Definition percent_of_examples : Formatting :=
  {| format_percent := λ v,
       match v with
       | PBool b => Ret (if b then u "100%" else u "0%")
       | PInt z =>
           if (Z.abs z <? 1000)%Z then Ret (u (pretty (100 * z)%Z) ++ u "%")
           else Raise (Exn OtherError (u "not a value of the examples"))
       | PFloat [48%N; 46%N; d] =>
           if Json.is_digit d
           then Ret (if (d =? 48)%N then u "0%" else [d; 48%N; 37%N])
           else Raise (Exn ValueError (u "not a value of the examples"))
       | PFloat _ => Raise (Exn OtherError (u "not a value of the examples"))
       | PStr _ =>
           Raise (Exn ValueError
                    (u "Invalid format specifier '.0%' for object of type 'str'"))
       | _ => Raise (Exn OtherError (u "unsupported format string passed to "
                                     ++ type_name v ++ u ".__format__"))
       end |}.

(** A step that only prints: its outcome does not depend on the
    moment, it sends nothing, and what was printed before stays. *)
Definition prints_only {A} (m : M A) : Prop :=
  ∀ w, m w = ((m w0).1, World (sent w) (stdout w ++ stdout (m w0).2)).

(** ** Proof steps *)

(** [lia] with the equations of Euclidean division. *)
Ltac Zify.zify_post_hook ::= Z.to_euclidean_division_equations.

(** What the hypotheses say about the scans already made. *)
Ltac scan_facts IH1 ws_length string_total constant_length number_length :=
  repeat match goal with
  | H : Json.skip_ws ?p ?s = (_, _) |- _ =>
      let X := fresh "Hws" in
      pose proof (ws_length p s) as X; rewrite H in X; cbn [snd] in X;
      revert H
  | H : Json.scanstring ?b ?p ?a ?s = _ |- _ =>
      let X := fresh "Hstr" in
      pose proof (string_total _ s b p a (le_n _)) as X; rewrite H in X;
      revert H
  | H : Json.scan_once ?f ?p ?s = _ |- _ =>
      let X := fresh "Hval" in
      pose proof (IH1 p s) as X; rewrite H in X; revert H
  | H : Json.scan_constant Json.constants ?p ?s = Some _ |- _ =>
      apply constant_length in H
  | H : Json.match_number ?p ?s = Some _ |- _ =>
      apply number_length in H
  end; intros.

Ltac scan_leaf IH :=
  first
  [ split; [cbn [Json.leaves length] in *; lia | intros _; reflexivity]
  | split; [done | intros ?;
      match goal with
      | X : _ ∧ Json.starved _ = false |- _ => exact (proj2 X)
      | X : _ ∧ (_ → Json.starved _ = false) |- _ =>
          apply (proj2 X); cbn [Json.leaves length] in *; lia
      end]
  | match goal with
    | |- context [Json.parse_items ?f ?a ?p ?r] =>
        let HA := fresh in let HB := fresh in
        destruct (proj1 (proj2 IH) a p r) as [HA HB];
        split; [|intros ?; apply HB; cbn [Json.leaves length] in *; lia];
        unfold Json.leaves in *; destruct (Json.parse_items f a p r);
        cbn [Json.leaves length] in *; lia
    | |- context [Json.parse_members ?f ?a ?p ?r] =>
        let HA := fresh in let HB := fresh in
        destruct (proj2 (proj2 IH) a p r) as [HA HB];
        split; [|intros ?; apply HB; cbn [Json.leaves length] in *; lia];
        unfold Json.leaves in *; destruct (Json.parse_members f a p r);
        cbn [Json.leaves length] in *; lia
    end ].

(** One field of the f-string: either it is missing and the lookup
    raises, or the reading goes on. *)
Ltac field_case ticket Hraise Hgo k :=
  let v := fresh "v" in
  let E := fresh "E" in
  destruct (ticket !! k) as [v|] eqn:E;
  [ rewrite (Hgo _ _ _ E)
  | exists k; split; [unfold required_fields; set_solver|];
    split; [done|]; by rewrite (Hraise _ _ E) ].

(** * Properties *)

(** ** Text primitives *)

Lemma startswith_length p s : startswith p s = true → length p ≤ length s.
Proof.
  revert s. induction p as [|a p IH]; intros [|b s]; simpl; try lia; try done.
  intros [_ H]%andb_true_iff. apply IH in H. lia.
Qed.

Lemma startswith_take p s n : startswith p (take n s) = true → startswith p s = true.
Proof.
  revert s n. induction p as [|a p IH]; intros [|b s] [|n]; simpl; try done.
  intros [-> H]%andb_true_iff. simpl. eauto.
Qed.

Lemma startswith_app_l p p' s : startswith (p ++ p') s = true → startswith p s = true.
Proof.
  revert s. induction p as [|a p IH]; intros [|b s]; simpl; try done.
  intros [-> H]%andb_true_iff. simpl. eauto.
Qed.

Lemma startswith_nil p : p ≠ [] → startswith p [] = false.
Proof. by destruct p. Qed.

(** [find] returns an index at which [sub] occurs, and the least one. *)
Lemma find_Some sub s i :
  find sub s = Some i →
  startswith sub (drop i s) = true
  ∧ ∀ j, j < i → startswith sub (drop j s) = false.
Proof.
  revert i. induction s as [|c s IH]; intros i; simpl.
  - destruct (startswith sub []) eqn:E; [|done].
    intros [= <-]. split; [done | intros; lia].
  - destruct (startswith sub (c :: s)) eqn:E.
    + intros [= <-]. split; [done | intros; lia].
    + destruct (find sub s) as [k|] eqn:F; [|done].
      intros [= <-]. destruct (IH k eq_refl) as [H1 H2].
      split; [done|]. intros [|j] Hj; [done|]. apply H2. lia.
Qed.

Lemma find_None sub s j : find sub s = None → startswith sub (drop j s) = false.
Proof.
  revert j. induction s as [|c s IH]; intros j; simpl.
  - destruct (startswith sub []) eqn:E; [done|]. by rewrite drop_nil.
  - destruct (startswith sub (c :: s)) eqn:E; [done|].
    destruct (find sub s) eqn:F; [done|]. intros _.
    destruct j; [done|]. by apply IH.
Qed.

Lemma find_bound sub s i : find sub s = Some i → i + length sub ≤ length s.
Proof.
  revert i. induction s as [|c s IH]; intros i; simpl.
  - destruct (startswith sub []) eqn:E; [|done].
    intros [= <-]. by apply startswith_length in E.
  - destruct (startswith sub (c :: s)) eqn:E.
    + intros [= <-]. by apply startswith_length in E.
    + destruct (find sub s) as [k|] eqn:F; [|done].
      intros [= <-]. specialize (IH k eq_refl). lia.
Qed.

(** No occurrence of [sep] lies before the first one. *)
Lemma find_take_None sep s i :
  sep ≠ [] → find sep s = Some i → find sep (take i s) = None.
Proof.
  intros Hsep. revert i. induction s as [|c s IH]; intros i; simpl.
  - destruct (startswith sep []) eqn:E; [|done].
    by rewrite startswith_nil in E.
  - destruct (startswith sep (c :: s)) eqn:E.
    + intros [= <-]. simpl. by rewrite startswith_nil.
    + destruct (find sep s) as [k|] eqn:F; [|done].
      intros [= <-]. simpl.
      destruct (startswith sep (c :: take k s)) eqn:E'.
      * apply (startswith_take _ (c :: s) (S k)) in E'. congruence.
      * by rewrite (IH k eq_refl).
Qed.

Lemma before_idem sep s : sep ≠ [] → before sep (before sep s) = before sep s.
Proof.
  intros Hsep. unfold before at 2 3. destruct (find sep s) as [i|] eqn:F.
  - unfold before. by rewrite (find_take_None _ _ _ Hsep F).
  - unfold before. by rewrite F.
Qed.

(** ** [split] *)

(** More fuel than the length of the text changes nothing. *)
Lemma split_fuel_enough sep s f1 f2 :
  sep ≠ [] → length s ≤ f1 → length s ≤ f2 →
  split_fuel f1 sep s = split_fuel f2 sep s.
Proof.
  intros Hsep. revert s f2.
  induction f1 as [|f1 IH]; intros s f2 H1 H2.
  - assert (s = []) as -> by (destruct s; simpl in *; [done | lia]).
    destruct f2; simpl; by rewrite startswith_nil.
  - simpl. destruct (find sep s) as [i|] eqn:F.
    + pose proof (find_bound _ _ _ F) as Hb.
      assert (0 < length sep) by (destruct sep; simpl; [done | lia]).
      destruct f2 as [|f2]; [lia|]. simpl. rewrite F. f_equal.
      apply IH; rewrite length_drop; lia.
    + destruct f2; simpl; by rewrite F.
Qed.

(** The equation of [str.split]: the fuel never runs out. *)
Lemma split_unfold sep s :
  sep ≠ [] →
  split sep s =
    match find sep s with
    | None => [s]
    | Some i => take i s :: split sep (drop (i + length sep) s)
    end.
Proof.
  intros Hsep. unfold split. destruct s as [|c s].
  - simpl. by rewrite startswith_nil.
  - change (length (c :: s)) with (S (length s)).
    cbn [split_fuel]. destruct (find sep (c :: s)) as [i|] eqn:F; [|done].
    f_equal. pose proof (find_bound _ _ _ F) as Hb.
    assert (0 < length sep) by (destruct sep; simpl; [done | lia]).
    simpl in Hb.
    apply split_fuel_enough; [done | rewrite length_drop; simpl; lia | done].
Qed.

Lemma split_head sep s : split sep s !! 0 = Some (before sep s).
Proof.
  unfold split, before. destruct (length s); simpl; by destruct (find sep s).
Qed.

Lemma split_second sep s :
  sep ≠ [] → py_in sep s = true →
  split sep s !! 1 = Some (before sep (after sep s)).
Proof.
  intros Hsep. unfold py_in, after. rewrite (split_unfold _ _ Hsep).
  destruct (find sep s) as [i|]; [|done]. intros _. simpl. apply split_head.
Qed.

(** The pieces are as many as the occurrences passed over, plus one. *)
Lemma split_length sep s : sep ≠ [] → 1 ≤ length (split sep s).
Proof.
  intros Hsep. rewrite (split_unfold _ _ Hsep).
  destruct (find sep s); simpl; lia.
Qed.

Lemma fence_nonempty : fence ≠ [].
Proof. done. Qed.

Lemma fence_json_nonempty : fence_json ≠ [].
Proof. done. Qed.

(** The fence removal of [classify_ticket] never raises, and what it
    yields is the text [parser_input] describes. *)
Lemma strip_fences_spec raw : strip_fences (strip raw) = Ret (parser_input raw).
Proof.
  unfold strip_fences, parser_input. set (t := strip raw).
  destruct (py_in fence_json t) eqn:Hj.
  - unfold getidx. rewrite (split_second _ _ fence_json_nonempty Hj). simpl.
    by rewrite split_head.
  - destruct (py_in fence t) eqn:Hf; [|done].
    unfold getidx. rewrite (split_second _ _ fence_nonempty Hf). simpl.
    rewrite split_head. simpl. by rewrite (before_idem _ _ fence_nonempty).
Qed.

(** ** [classify_ticket] *)

Section Contract.
Context `{External}.
Implicit Types (self : AgentClassifier) (ticket : gmap str pyval) (w : world).

Lemma getitem_Ret ticket k v : getitem ticket k = Ret v ↔ ticket !! k = Some v.
Proof. unfold getitem. destruct (ticket !! k); split; congruence. Qed.

Lemma getitem_Some ticket k v : ticket !! k = Some v → getitem ticket k = Ret v.
Proof. apply getitem_Ret. Qed.

Lemma bind_getitem_Ret {B} ticket k (rest : pyval → res B) r :
  (let* x := getitem ticket k in rest x) = Ret r →
  ∃ v, ticket !! k = Some v ∧ rest v = Ret r.
Proof. unfold getitem. destruct (ticket !! k); simpl; [eauto | done]. Qed.

(** The prompt is built exactly when the six fields are present. *)
Lemma full_prompt_Ret ticket :
  has_required_fields ticket ↔ ∃ prompt, full_prompt ticket = Ret prompt.
Proof.
  unfold has_required_fields, required_fields, full_prompt.
  rewrite !Forall_cons. split.
  - intros ([? ->%getitem_Some] & [? ->%getitem_Some] & [? ->%getitem_Some]
            & [? ->%getitem_Some] & [? ->%getitem_Some] & [? ->%getitem_Some] & _).
    cbn [res_bind]. eauto.
  - intros [prompt Hp].
    do 6 (apply bind_getitem_Ret in Hp as (? & ? & Hp)).
    repeat split; eauto.
Qed.

Lemma full_prompt_id ticket prompt :
  full_prompt ticket = Ret prompt → is_Some (ticket !! u "id").
Proof.
  intros Hp. assert (has_required_fields ticket) as Hr
    by (apply full_prompt_Ret; eauto).
  by apply Forall_cons in Hr as [? _].
Qed.

(** [classify_ticket] on a ticket with its six fields: one request is
    sent, nothing else changes, and the result is a function of the
    answer. *)
Lemma classify_ticket_eq self ticket w prompt ticket_id :
  full_prompt ticket = Ret prompt →
  ticket !! u "id" = Some ticket_id →
  classify_ticket self ticket w =
    (Ret (result_of ticket_id (generate_content (model self) (sent w) prompt)),
     World (sent w ++ [prompt]) (stdout w)).
Proof.
  intros Hp Hid. apply getitem_Some in Hid.
  unfold classify_ticket, classify_try, call_model, bind, lift, ret, result_of.
  rewrite Hp. simpl.
  destruct (generate_content _ _ _) as [[[raw|e]]|e]; simpl.
  - rewrite strip_fences_spec.
    destruct (json_loads (parser_input raw)) as [v|e]; simpl; rewrite Hid; simpl.
    + done.
    + unfold failure_result. by destruct (exn_class_of e).
  - rewrite Hid. unfold failure_result. by destruct (exn_class_of e).
  - rewrite Hid. unfold failure_result. by destruct (exn_class_of e).
Qed.

(** A missing field: the lookup error leaves [classify_ticket] before
    anything is sent. *)
Lemma classify_ticket_missing self ticket w :
  ¬ has_required_fields ticket →
  ∃ k, k ∈ required_fields ∧ ticket !! k = None
       ∧ classify_ticket self ticket w
         = (Raise (Exn KeyError (u "'" ++ k ++ u "'")), w).
Proof.
  intros Hmiss. unfold classify_ticket, bind, lift, full_prompt.
  assert (∀ k (rest : pyval → res str),
    ticket !! k = None →
    (let* x := getitem ticket k in rest x) = Raise (Exn KeyError (u "'" ++ k ++ u "'")))
    as Hraise by (intros k rest Hk; unfold getitem; by rewrite Hk).
  assert (∀ k v (rest : pyval → res str),
    ticket !! k = Some v → (let* x := getitem ticket k in rest x) = rest v)
    as Hgo by (intros k v rest Hk; unfold getitem; by rewrite Hk).
  field_case ticket Hraise Hgo (u "id").
  field_case ticket Hraise Hgo (u "subject").
  field_case ticket Hraise Hgo (u "description").
  field_case ticket Hraise Hgo (u "customer_email").
  field_case ticket Hraise Hgo (u "customer_tier").
  field_case ticket Hraise Hgo (u "created_at").
  exfalso. apply Hmiss. unfold has_required_fields, required_fields.
  repeat (constructor; [by eexists|]). constructor.
Qed.

(** C1 (as amended).  For every reply text [raw], the fence removal of
    [classify_ticket] never raises and the text it hands to
    [json.loads] is [parser_input raw]: with [t] the trimmed reply, if
    [t] contains the JSON marker, the part of [t] after the first
    marker and before the next marker (if any), cut at its first
    triple backtick (if any) and trimmed again; otherwise, if [t]
    contains a triple backtick, the part after the first one and
    before the next one (to the end when there is none), trimmed
    again; otherwise [t] itself.  What follows the closing fence is
    dropped. *)
Theorem parser_input_correct self ticket w prompt raw :
  generate_content (model self) (sent w) prompt = Ret {| text := Ret raw |} →
  strip_fences (strip raw) = Ret (parser_input raw)
  ∧ (classify_try self ticket prompt w).1
    = Ret (Some (parser_input raw),
           let* classification := json_loads (parser_input raw) in
           let* ticket_id := getitem ticket (u "id") in
           Ret (success_result ticket_id classification)).
Proof.
  intros Hgen. split; [apply strip_fences_spec|].
  unfold classify_try, call_model, bind, ret. simpl.
  rewrite Hgen. simpl. by rewrite strip_fences_spec.
Qed.

(** C3 (as amended).  When [json.loads] raises [JSONDecodeError] on
    the text handed to it, [classify_ticket] returns a failure result,
    after its one request: [success] is false, [error] is the
    decoder's message after the prefix
    "Failed to parse JSON response: ", and [raw_response] is the text
    that was handed to the decoder, that is the reply after trimming,
    fence removal and trimming again.  (A decoder that raises anything
    else, as on a text nested too deep, is the case of C4.) *)
Theorem parse_failure_result self ticket w prompt ticket_id raw e :
  full_prompt ticket = Ret prompt →
  ticket !! u "id" = Some ticket_id →
  generate_content (model self) (sent w) prompt = Ret {| text := Ret raw |} →
  json_loads (parser_input raw) = Raise e →
  exn_class_of e = JSONDecodeError →
  classify_ticket self ticket w =
    (Ret {[ u "success" := PBool false;
            u "ticket_id" := ticket_id;
            u "error" := PStr (u "Failed to parse JSON response: " ++ exn_str e);
            u "raw_response" := PStr (parser_input raw) ]},
     World (sent w ++ [prompt]) (stdout w)).
Proof.
  intros Hp Hid Hgen Hloads Hcls.
  rewrite (classify_ticket_eq _ _ _ _ _ Hp Hid), Hgen. unfold result_of. simpl.
  rewrite Hloads. unfold failure_result. by rewrite Hcls.
Qed.

(** C4.  When the request to the remote model raises, or reading the
    text of its answer raises, or decoding raises, and the exception
    is not a [JSONDecodeError], [classify_ticket] returns a failure
    result whose [error] is "API error: " followed by the text of the
    exception, and which has no [raw_response] entry. *)
Theorem api_failure_result self ticket w prompt ticket_id e :
  full_prompt ticket = Ret prompt →
  ticket !! u "id" = Some ticket_id →
  exn_class_of e ≠ JSONDecodeError →
  generate_content (model self) (sent w) prompt = Raise e
  ∨ (∃ response, generate_content (model self) (sent w) prompt = Ret response
                 ∧ text response = Raise e)
  ∨ (∃ raw, generate_content (model self) (sent w) prompt = Ret {| text := Ret raw |}
            ∧ json_loads (parser_input raw) = Raise e) →
  ∃ result,
    classify_ticket self ticket w
    = (Ret result, World (sent w ++ [prompt]) (stdout w))
    ∧ result = {[ u "success" := PBool false;
                  u "ticket_id" := ticket_id;
                  u "error" := PStr (u "API error: " ++ exn_str e) ]}
    ∧ result !! u "raw_response" = None.
Proof.
  intros Hp Hid Hcls Hfail.
  exists (api_failure ticket_id (exn_str e)).
  rewrite (classify_ticket_eq _ _ _ _ _ Hp Hid).
  assert (failure_result ticket_id None e = api_failure ticket_id (exn_str e)
          ∧ ∀ t, failure_result ticket_id (Some t) e = api_failure ticket_id (exn_str e))
    as [Hf1 Hf2] by (unfold failure_result; by destruct (exn_class_of e)).
  split; [|split; [done|]].
  - f_equal. f_equal. unfold result_of.
    destruct Hfail as [-> | [(response & -> & Ht) | (raw & -> & Hl)]].
    + done.
    + by rewrite Ht.
    + simpl. by rewrite Hl.
  - unfold api_failure. by simplify_map_eq.
Qed.

(** C5.  For a ticket that lacks one of the six required fields,
    [classify_ticket] raises the [KeyError] of a missing field; the
    world is unchanged, so no request was sent, and no failure result
    is returned in its place. *)
Theorem missing_field_raises self ticket w :
  (∃ k, k ∈ required_fields ∧ ticket !! k = None) →
  ∃ k, k ∈ required_fields ∧ ticket !! k = None
       ∧ classify_ticket self ticket w
         = (Raise (Exn KeyError (u "'" ++ k ++ u "'")), w).
Proof.
  intros (k & Hk & Hnone). apply classify_ticket_missing.
  unfold has_required_fields. rewrite Forall_forall. intros Hall.
  destruct (Hall k Hk) as [v Hv]. congruence.
Qed.

(** C6.  When the text handed to [json.loads] decodes to a value,
    [classify_ticket] returns the success result made of [True], the
    ticket's own id and that value as it is, whatever the value. *)
Theorem success_result_verbatim self ticket w prompt ticket_id raw classification :
  full_prompt ticket = Ret prompt →
  ticket !! u "id" = Some ticket_id →
  generate_content (model self) (sent w) prompt = Ret {| text := Ret raw |} →
  json_loads (parser_input raw) = Ret classification →
  classify_ticket self ticket w =
    (Ret {[ u "success" := PBool true;
            u "ticket_id" := ticket_id;
            u "classification" := classification ]},
     World (sent w ++ [prompt]) (stdout w)).
Proof.
  intros Hp Hid Hgen Hloads.
  rewrite (classify_ticket_eq _ _ _ _ _ Hp Hid), Hgen. unfold result_of. simpl.
  by rewrite Hloads.
Qed.

(** C9.  A decoded value that is not an object (none, a boolean, a
    number, a string or a list) is returned as the classification of
    a success result all the same. *)
Theorem non_object_is_success self ticket w prompt ticket_id raw v :
  full_prompt ticket = Ret prompt →
  ticket !! u "id" = Some ticket_id →
  generate_content (model self) (sent w) prompt = Ret {| text := Ret raw |} →
  json_loads (parser_input raw) = Ret v →
  (∀ members, v ≠ PDict members) →
  ∃ result,
    classify_ticket self ticket w
    = (Ret result, World (sent w ++ [prompt]) (stdout w))
    ∧ result !! u "success" = Some (PBool true)
    ∧ result !! u "classification" = Some v
    ∧ result !! u "error" = None.
Proof.
  intros Hp Hid Hgen Hloads _.
  exists (success_result ticket_id v).
  rewrite (classify_ticket_eq _ _ _ _ _ Hp Hid), Hgen. unfold result_of. simpl.
  rewrite Hloads. unfold success_result. split; [done|].
  split; [|split]; by simplify_map_eq.
Qed.

(** The shape of every result [result_of] builds. *)
Lemma result_of_shape ticket_id answer :
  let result := result_of ticket_id answer in
  result !! u "ticket_id" = Some ticket_id
  ∧ ∃ b, result !! u "success" = Some (PBool b)
         ∧ (is_Some (result !! u "classification") ↔ b = true)
         ∧ ((∃ message, result !! u "error" = Some (PStr message)) ↔ b = false).
Proof.
  assert (∀ t e,
    let result := failure_result ticket_id t e in
    result !! u "ticket_id" = Some ticket_id
    ∧ ∃ b, result !! u "success" = Some (PBool b)
           ∧ (is_Some (result !! u "classification") ↔ b = true)
           ∧ ((∃ message, result !! u "error" = Some (PStr message)) ↔ b = false))
    as Hfail.
  { intros t e. unfold failure_result.
    destruct (exn_class_of e); simpl; unfold api_failure, parse_failure;
      (split; [by simplify_map_eq|]); exists false;
      (split; [by simplify_map_eq|]);
      (split; [split; [intros [? ?]; by simplify_map_eq | done]|]);
      (split; [done | intros _; eexists; by simplify_map_eq]). }
  unfold result_of. destruct answer as [[[raw|e]]|e]; simpl; try apply Hfail.
  destruct (json_loads (parser_input raw)) as [v|e]; [|apply Hfail].
  unfold success_result. split; [by simplify_map_eq|]. exists true.
  split; [by simplify_map_eq|]. split.
  - split; [done|]. intros _. eexists. by simplify_map_eq.
  - split; [|done]. intros [? ?]. by simplify_map_eq.
Qed.

(** C10.  For a ticket that has an id, every result [classify_ticket]
    returns carries that id as [ticket_id] and a boolean [success]; it
    has a [classification] entry exactly when [success] is true, and an
    [error] string exactly when [success] is false. *)
Theorem result_shape self ticket w ticket_id result w' :
  ticket !! u "id" = Some ticket_id →
  classify_ticket self ticket w = (Ret result, w') →
  result !! u "ticket_id" = Some ticket_id
  ∧ ∃ b, result !! u "success" = Some (PBool b)
         ∧ (is_Some (result !! u "classification") ↔ b = true)
         ∧ ((∃ message, result !! u "error" = Some (PStr message)) ↔ b = false).
Proof.
  intros Hid Hrun.
  destruct (decide (has_required_fields ticket)) as [Hreq|Hreq].
  - apply full_prompt_Ret in Hreq as [prompt Hp].
    rewrite (classify_ticket_eq _ _ _ _ _ Hp Hid) in Hrun.
    injection Hrun as <- _. apply result_of_shape.
  - destruct (classify_ticket_missing self ticket w Hreq) as (k & _ & _ & Hk).
    congruence.
Qed.

End Contract.

(** ** [process_batch] *)

Section Batch.
Context `{External}.
Implicit Types (self : AgentClassifier) (ticket : gmap str pyval) (w : world).

Lemma bind_Ret {A B} (m : M A) (k : A → M B) w a w' :
  m w = (Ret a, w') → bind m k w = k a w'.
Proof. unfold bind. by intros ->. Qed.

Lemma lift_getitem (d : gmap str pyval) k v w :
  d !! k = Some v → lift (getitem d k) w = (Ret v, w).
Proof. intros Hk. unfold lift. by rewrite (getitem_Some _ _ _ Hk). Qed.

Lemma print_eq s e w : print s e w = (Ret tt, World (sent w) (stdout w ++ [s ++ e])).
Proof. done. Qed.


(** The results carry a boolean [success]: counting never raises. *)
Lemma count_success_eq (results : list (gmap str pyval)) :
  Forall (λ r, ∃ b, r !! u "success" = Some (PBool b)) results →
  count_success results = Ret (length (filter (λ r, is_success r = true) results)).
Proof.
  induction 1 as [|r rs [b Hb] _ IH]; [done|].
  cbn [count_success]. unfold getitem. rewrite Hb. cbn [res_bind].
  rewrite IH. cbn [res_bind]. f_equal.
  assert (is_success r = b) as Hr by (unfold is_success; by rewrite Hb).
  rewrite filter_cons, Hr. simpl. destruct b; by case_decide.
Qed.



End Batch.

(** ** The codec: a classification is read back from its JSON text *)

Module JsonFacts.
Import Json.

Lemma hexval_hexdigit x : (x < 16)%N → hexval (hexdigit x) = Some x.
Proof.
  intros Hx. unfold hexdigit, hexval, is_digit.
  destruct (x <? 10)%N eqn:E.
  - apply N.ltb_lt in E.
    replace ((48 <=? 48 + x)%N) with true by (symmetry; apply N.leb_le; lia).
    replace ((48 + x <=? 57)%N) with true by (symmetry; apply N.leb_le; lia).
    simpl. f_equal. lia.
  - apply N.ltb_ge in E.
    replace ((48 <=? 87 + x)%N) with true by (symmetry; apply N.leb_le; lia).
    replace ((87 + x <=? 57)%N) with false by (symmetry; apply N.leb_gt; lia).
    replace ((97 <=? 87 + x)%N) with true by (symmetry; apply N.leb_le; lia).
    replace ((87 + x <=? 102)%N) with true by (symmetry; apply N.leb_le; lia).
    simpl. f_equal. lia.
Qed.

Lemma hex4_u_escape n :
  (n < 65536)%N →
  hex4 (hexdigit (n / 4096 mod 16)) (hexdigit (n / 256 mod 16))
       (hexdigit (n / 16 mod 16)) (hexdigit (n mod 16)) = Some n.
Proof.
  intros Hn. unfold hex4.
  rewrite !hexval_hexdigit by (apply N.mod_lt; lia). simpl. f_equal. lia.
Qed.

Lemma scanstring_plain b p acc c t :
  (c =? 34)%N = false → (c =? 92)%N = false → (c <=? 31)%N = false →
  scanstring b p acc (c :: t) = scanstring b (S p) (c :: acc) t.
Proof. intros H1 H2 H3. cbn [scanstring]. by rewrite H1, H2, H3. Qed.

Lemma scanstring_escape b p acc e c t :
  (e =? 117)%N = false → unescape e = Some c →
  scanstring b p acc (92%N :: e :: t) = scanstring b (p + 2) (c :: acc) t.
Proof. intros H1 H2. cbn [scanstring]. change (92 =? 34)%N with false. change (92 =? 92)%N with true. cbn match. by rewrite H1, H2. Qed.

Lemma scanstring_u b p acc h1 h2 h3 h4 c t0 t :
  hex4 h1 h2 h3 h4 = Some c → is_high_surrogate c = false →
  scanstring b p acc (92 :: 117 :: h1 :: h2 :: h3 :: h4 :: t0 :: t)%N
  = scanstring b (p + 6) (c :: acc) (t0 :: t).
Proof.
  intros H1 H2. cbn [scanstring].
  change (92 =? 34)%N with false. change (92 =? 92)%N with true.
  change (117 =? 117)%N with true. cbn match. rewrite H1.
  destruct t as [|? [|? [|? [|? [|? [|? ?]]]]]]; try reflexivity.
  by rewrite H2.
Qed.

Lemma scanstring_pair b p acc h1 h2 h3 h4 k1 k2 k3 k4 c1 c2 t0 t :
  hex4 h1 h2 h3 h4 = Some c1 → is_high_surrogate c1 = true →
  hex4 k1 k2 k3 k4 = Some c2 → is_low_surrogate c2 = true →
  scanstring b p acc
    (92 :: 117 :: h1 :: h2 :: h3 :: h4 :: 92 :: 117 :: k1 :: k2 :: k3 :: k4 :: t0 :: t)%N
  = scanstring b (p + 12) ((65536 + (c1 - 55296) * 1024 + (c2 - 56320))%N :: acc) (t0 :: t).
Proof.
  intros H1 H2 H3 H4. cbn [scanstring].
  change (92 =? 34)%N with false. change (92 =? 92)%N with true.
  change (117 =? 117)%N with true. cbn match. rewrite H1, H2. cbn [andb].
  by rewrite H3, H4.
Qed.


Lemma scanstring_escape_char b p acc c t0 t :
  is_scalar c = true →
  scanstring b p acc (escape_char c ++ t0 :: t)
  = scanstring b (p + length (escape_char c)) (c :: acc) (t0 :: t).
Proof.
  intros Hc. unfold escape_char.
  destruct (c =? 34)%N eqn:E1; [apply N.eqb_eq in E1 as ->; reflexivity|].
  destruct (c =? 92)%N eqn:E2; [apply N.eqb_eq in E2 as ->; reflexivity|].
  destruct (c =? 8)%N eqn:E3; [apply N.eqb_eq in E3 as ->; reflexivity|].
  destruct (c =? 12)%N eqn:E4; [apply N.eqb_eq in E4 as ->; reflexivity|].
  destruct (c =? 10)%N eqn:E5; [apply N.eqb_eq in E5 as ->; reflexivity|].
  destruct (c =? 13)%N eqn:E6; [apply N.eqb_eq in E6 as ->; reflexivity|].
  destruct (c =? 9)%N eqn:E7; [apply N.eqb_eq in E7 as ->; reflexivity|].
  destruct ((32 <=? c) && (c <=? 126))%N eqn:E8.
  { apply andb_true_iff in E8 as [E8 _]. apply N.leb_le in E8.
    cbn [app length]. rewrite Nat.add_1_r. apply scanstring_plain; [done..|].
    apply N.leb_gt. lia. }
  unfold is_scalar in Hc.
  destruct (c <? 65536)%N eqn:E9.
  - apply N.ltb_lt in E9. unfold u_escape. cbn [app length].
    apply scanstring_u; [by apply hex4_u_escape|].
    unfold is_high_surrogate.
    apply orb_true_iff in Hc as [Hc|[Hc _]%andb_true_iff].
    + apply N.ltb_lt in Hc. apply andb_false_iff. left. apply N.leb_gt. lia.
    + apply N.leb_le in Hc. apply andb_false_iff. right. apply N.leb_gt. lia.
  - apply N.ltb_ge in E9.
    assert (c < 1114112)%N as Hlt.
    { apply orb_true_iff in Hc as [Hc|[_ Hc]%andb_true_iff]; apply N.ltb_lt in Hc; lia. }
    unfold u_escape. cbn [app length].
    rewrite (scanstring_pair b p acc _ _ _ _ _ _ _ _
               (55296 + (c - 65536) / 1024 mod 1024)
               (56320 + (c - 65536) mod 1024)).
    + do 2 f_equal. lia.
    + apply hex4_u_escape. lia.
    + unfold is_high_surrogate. apply andb_true_iff. split; apply N.leb_le; lia.
    + apply hex4_u_escape. lia.
    + unfold is_low_surrogate. apply andb_true_iff. split; apply N.leb_le; lia.
Qed.

(** A string between quotes is read back as it was written. *)
Lemma scanstring_dumps s b p acc rest :
  forallb is_scalar s = true →
  scanstring b p acc (concat (escape_char <$> s) ++ 34%N :: rest)
  = Ok (reverse acc ++ s) (S (p + length (concat (escape_char <$> s)))) rest.
Proof.
  revert p acc. induction s as [|c s IH]; intros p acc Hs.
  - cbn. by rewrite app_nil_r, Nat.add_0_r.
  - cbn [forallb] in Hs. apply andb_true_iff in Hs as [Hc Hs].
    cbn [fmap list_fmap concat]. rewrite <- app_assoc.
    destruct (concat (escape_char <$> s) ++ 34%N :: rest) as [|t0 t] eqn:Et.
    { by destruct (concat (escape_char <$> s)). }
    rewrite (scanstring_escape_char _ _ _ _ _ _ Hc), IH by done. f_equal.
    + rewrite reverse_cons, <- app_assoc. done.
    + rewrite length_app. lia.
Qed.


Lemma delim_cases t : is_delim t = true → t = 44%N ∨ t = 125%N ∨ t = 93%N.
Proof.
  unfold is_delim. intros H.
  apply orb_true_iff in H as [H|H]; [apply orb_true_iff in H as [H|H]|];
    apply N.eqb_eq in H; auto.
Qed.

Lemma span_digits_delim s t rest :
  is_delim t = true →
  span_digits (s ++ t :: rest) = let '(ds, r) := span_digits s in (ds, r ++ t :: rest).
Proof.
  intros Ht. induction s as [|c s IH].
  - by destruct (delim_cases t Ht) as [->|[->| ->]].
  - cbn [app span_digits]. rewrite IH. destruct (is_digit c); [|done].
    by destruct (span_digits s).
Qed.

Lemma scan_integer_delim s t rest :
  is_delim t = true →
  scan_integer (s ++ t :: rest)
  = (λ '(ds, r), (ds, r ++ t :: rest)) <$> scan_integer s.
Proof.
  intros Ht. destruct s as [|c s].
  - by destruct (delim_cases t Ht) as [->|[->| ->]].
  - cbn [app scan_integer]. destruct (negb (is_digit c)); [done|].
    destruct (c =? 48)%N; [done|].
    rewrite (span_digits_delim _ _ _ Ht). by destruct (span_digits s).
Qed.

Lemma scan_fraction_delim s t rest :
  is_delim t = true →
  scan_fraction (s ++ t :: rest)
  = let '(ds, r) := scan_fraction s in (ds, r ++ t :: rest).
Proof.
  intros Ht. destruct s as [|c [|d s]].
  - destruct rest; by destruct (delim_cases t Ht) as [->|[->| ->]].
  - cbn [app scan_fraction].
    replace (is_digit t) with false
      by (by destruct (delim_cases t Ht) as [->|[->| ->]]).
    by rewrite andb_false_r.
  - cbn [app scan_fraction].
    destruct ((c =? 46)%N && is_digit d); [|done].
    rewrite (span_digits_delim _ _ _ Ht). by destruct (span_digits s).
Qed.

Lemma scan_exponent_delim s t rest :
  is_delim t = true →
  scan_exponent (s ++ t :: rest)
  = let '(ds, r) := scan_exponent s in (ds, r ++ t :: rest).
Proof.
  intros Ht. destruct s as [|e s].
  - by destruct (delim_cases t Ht) as [->|[->| ->]].
  - cbn [app scan_exponent]. destruct ((e =? 101) || (e =? 69))%N; [|done].
    destruct s as [|x s].
    + by destruct (delim_cases t Ht) as [->|[->| ->]].
    + cbn [app]. destruct ((x =? 45) || (x =? 43))%N.
      * rewrite (span_digits_delim _ _ _ Ht).
        by destruct (span_digits s) as [[|??] ?].
      * change (x :: s ++ t :: rest) with ((x :: s) ++ t :: rest).
        rewrite (span_digits_delim (x :: s) _ _ Ht).
        by destruct (span_digits (x :: s)) as [[|??] ?].
Qed.

(** Before a delimiter a number is matched as it is alone. *)
Lemma match_number_delim pos s t rest :
  is_delim t = true →
  match_number pos (s ++ t :: rest)
  = (λ '(v, n, r), (v, n, r ++ t :: rest)) <$> match_number pos s.
Proof.
  intros Ht. unfold match_number.
  assert (∀ sign s1,
    match scan_integer (s1 ++ t :: rest) with
    | None => None
    | Some (int_digits, s3) =>
        let '(frac, s4) := scan_fraction s3 in
        let '(expo, s5) := scan_exponent s4 in
        let lit := sign ++ int_digits ++ frac ++ expo in
        Some (match frac, expo with
              | [], [] => PInt (int_of_literal lit)
              | _, _ => PFloat lit
              end, pos + length lit, s5)
    end
    = (λ '(v, n, r), (v, n, r ++ t :: rest)) <$>
      match scan_integer s1 with
      | None => None
      | Some (int_digits, s3) =>
          let '(frac, s4) := scan_fraction s3 in
          let '(expo, s5) := scan_exponent s4 in
          let lit := sign ++ int_digits ++ frac ++ expo in
          Some (match frac, expo with
                | [], [] => PInt (int_of_literal lit)
                | _, _ => PFloat lit
                end, pos + length lit, s5)
      end) as Hbody.
  { intros sign s1. rewrite (scan_integer_delim _ _ _ Ht).
    destruct (scan_integer s1) as [[int_digits s3]|]; [|done]. cbn.
    rewrite (scan_fraction_delim _ _ _ Ht).
    destruct (scan_fraction s3) as [frac s4].
    rewrite (scan_exponent_delim _ _ _ Ht).
    by destruct (scan_exponent s4) as [expo s5]. }
  destruct s as [|c s].
  - by destruct (delim_cases t Ht) as [->|[->| ->]].
  - cbn [app]. destruct (c =? 45)%N.
    + apply (Hbody [c] s).
    + apply (Hbody [] (c :: s)).
Qed.


Lemma span_digits_app s : (span_digits s).1 ++ (span_digits s).2 = s.
Proof.
  induction s as [|c s IH]; [done|]. cbn [span_digits].
  destruct (is_digit c); [|done]. destruct (span_digits s). simpl in *. by rewrite IH.
Qed.

(** What a number match consumes is a prefix of the text, and the
    value of a float is that prefix. *)
Lemma match_number_consumed pos s v n r :
  match_number pos s = Some (v, n, r) →
  ∃ lit, s = lit ++ r ∧ n = pos + length lit
         ∧ (v = PFloat lit ∨ v = PInt (int_of_literal lit)).
Proof.
  unfold match_number.
  assert (∀ sign s1,
    match scan_integer s1 with
    | None => None
    | Some (int_digits, s3) =>
        let '(frac, s4) := scan_fraction s3 in
        let '(expo, s5) := scan_exponent s4 in
        let lit := sign ++ int_digits ++ frac ++ expo in
        Some (match frac, expo with
              | [], [] => PInt (int_of_literal lit)
              | _, _ => PFloat lit
              end, pos + length lit, s5)
    end = Some (v, n, r) →
    ∃ lit, sign ++ s1 = lit ++ r ∧ n = pos + length lit
           ∧ (v = PFloat lit ∨ v = PInt (int_of_literal lit))) as Hbody.
  { intros sign s1.
    destruct (scan_integer s1) as [[int_digits s3]|] eqn:Hint; [|done].
    destruct (scan_fraction s3) as [frac s4] eqn:Hfrac.
    destruct (scan_exponent s4) as [expo s5] eqn:Hexp.
    intros [= <- <- <-].
    exists (sign ++ int_digits ++ frac ++ expo). split; [|split; [done|]].
    - rewrite <- !app_assoc. f_equal.
      assert (s1 = int_digits ++ s3) as ->.
      { unfold scan_integer in Hint. destruct s1 as [|c s1]; [done|].
        destruct (negb (is_digit c)); [done|].
        destruct (c =? 48)%N; [by injection Hint as <- <-|].
        pose proof (span_digits_app s1). destruct (span_digits s1).
        injection Hint as <- <-. simpl in *. by f_equal. }
      f_equal.
      assert (s3 = frac ++ s4) as ->.
      { unfold scan_fraction in Hfrac. destruct s3 as [|c [|d s3]];
          try by injection Hfrac as <- <-.
        destruct ((c =? 46)%N && is_digit d); [|by injection Hfrac as <- <-].
        pose proof (span_digits_app s3). destruct (span_digits s3).
        injection Hfrac as <- <-. simpl in *. by do 2 f_equal. }
      f_equal.
      unfold scan_exponent in Hexp. destruct s4 as [|e s4];
        [by injection Hexp as <- <-|].
      destruct ((e =? 101) || (e =? 69))%N; [|by injection Hexp as <- <-].
      destruct s4 as [|x s4]; [by injection Hexp as <- <-|].
      destruct ((x =? 45) || (x =? 43))%N.
      + pose proof (span_digits_app s4). destruct (span_digits s4) as [[|d ds] r'].
        * by injection Hexp as <- <-.
        * injection Hexp as <- <-. simpl in *. by do 2 f_equal.
      + pose proof (span_digits_app (x :: s4)).
        destruct (span_digits (x :: s4)) as [[|d ds] r'].
        * by injection Hexp as <- <-.
        * injection Hexp as <- <-. simpl in *. by f_equal.
    - destruct frac, expo; auto. }
  destruct s as [|c s]; [done|].
  destruct (c =? 45)%N; [apply (Hbody [c] s) | apply (Hbody [] (c :: s))].
Qed.


Lemma scan_once_str fuel pos s rest :
  1 ≤ fuel →
  forallb is_scalar s = true →
  ∃ p, scan_once fuel pos (dumps_str s ++ rest) = Ok (PStr s) p rest.
Proof.
  intros Hfuel Hs. destruct fuel as [|fuel]; [lia|]. unfold dumps_str. rewrite <- !app_assoc. cbn [app scan_once].
  change (34 =? 34)%N with true. cbn match.
  rewrite (scanstring_dumps _ _ _ _ _ Hs). by eexists.
Qed.

Lemma is_digit_bounds c : is_digit c = true → (48 ≤ c ≤ 57)%N.
Proof.
  unfold is_digit. intros [H1 H2]%andb_true_iff.
  apply N.leb_le in H1, H2. lia.
Qed.

(** The head of a number is a digit, or a minus sign before a digit. *)
Lemma match_number_head pos s :
  is_Some (match_number pos s) →
  ∃ c s', s = c :: s'
    ∧ (is_digit c = true
       ∨ c = 45%N ∧ ∃ d s'', s' = d :: s'' ∧ is_digit d = true).
Proof.
  unfold match_number. destruct s as [|c s]; [by intros [? ?]|].
  intros Hsome. exists c, s. split; [done|].
  destruct (c =? 45)%N eqn:Ec.
  - right. apply N.eqb_eq in Ec. split; [done|].
    unfold scan_integer in Hsome. destruct s as [|d s]; [by destruct Hsome|].
    exists d, s. split; [done|]. destruct (is_digit d); [done|by destruct Hsome].
  - left. unfold scan_integer in Hsome.
    destruct (is_digit c); [done|by destruct Hsome].
Qed.

Lemma scan_constant_digit pos c s :
  is_digit c = true → scan_constant constants pos (c :: s) = None.
Proof.
  intros Hc%is_digit_bounds. unfold constants, scan_constant.
  cbn -[N.eqb drop length].
  repeat match goal with
         | |- context [(?k =? c)%N] =>
             replace (k =? c)%N with false by (symmetry; apply N.eqb_neq; lia)
         end.
  done.
Qed.

Lemma scan_constant_minus pos d s :
  is_digit d = true → scan_constant constants pos (45%N :: d :: s) = None.
Proof.
  intros Hc%is_digit_bounds. unfold constants, scan_constant.
  cbn -[N.eqb drop length].
  repeat match goal with
         | |- context [(?k =? d)%N] =>
             replace (k =? d)%N with false by (symmetry; apply N.eqb_neq; lia)
         end.
  done.
Qed.

Lemma scan_once_number fuel pos s :
  is_Some (match_number pos s) →
  scan_once (S fuel) pos s
  = match match_number pos s with
    | Some (v, p, r) => Ok v p r
    | None => expecting_value pos
    end.
Proof.
  intros (c & s' & -> & Hhead)%match_number_head. cbn [scan_once].
  destruct Hhead as [Hc | (-> & d & s'' & -> & Hd)].
  - rewrite (scan_constant_digit _ _ _ Hc). apply is_digit_bounds in Hc.
    replace (c =? 34)%N with false by (symmetry; apply N.eqb_neq; lia).
    replace (c =? 123)%N with false by (symmetry; apply N.eqb_neq; lia).
    replace (c =? 91)%N with false by (symmetry; apply N.eqb_neq; lia).
    done.
  - by rewrite (scan_constant_minus _ _ _ Hd).
Qed.

Lemma match_number_pos pos s :
  match_number pos s = (λ '(v, n, r), (v, pos + n, r)) <$> match_number 0 s.
Proof.
  unfold match_number.
  destruct (match s with
            | [] => ([], s)
            | c :: s' => if (c =? 45)%N then ([c], s') else ([], s)
            end) as [sign s1].
  destruct (scan_integer s1) as [[int_digits s3]|]; [|done].
  destruct (scan_fraction s3) as [frac s4].
  by destruct (scan_exponent s4) as [expo s5].
Qed.

Lemma scan_once_float fuel pos lit t rest :
  1 ≤ fuel →
  is_float_literal lit = true → is_delim t = true →
  ∃ p, scan_once fuel pos (lit ++ t :: rest) = Ok (PFloat lit) p (t :: rest).
Proof.
  intros Hfuel. destruct fuel as [|fuel]; [lia|].
  unfold is_float_literal. intros Hlit Ht.
  destruct (match_number 0 lit) as [[[v n] r]|] eqn:Hm; [|done].
  destruct v as [| | |l| | |]; try done. destruct r; [|done].
  destruct (match_number_consumed _ _ _ _ _ Hm) as (lit' & Hl & _ & Hv).
  rewrite app_nil_r in Hl. subst lit'.
  destruct Hv as [[= ->]|?]; [|done].
  assert (match_number pos (lit ++ t :: rest)
          = Some (PFloat lit, pos + n, t :: rest)) as Hnum.
  { rewrite (match_number_delim _ _ _ _ Ht), match_number_pos, Hm. done. }
  rewrite scan_once_number by (rewrite Hnum; eauto).
  rewrite Hnum. by eexists.
Qed.

Lemma scan_once_bool fuel pos b rest :
  scan_once (S fuel) pos (dumps (PBool b) ++ rest)
  = Ok (PBool b) (pos + length (dumps (PBool b))) rest.
Proof. by destruct b. Qed.

Lemma scan_once_null fuel pos rest :
  scan_once (S fuel) pos (dumps PNone ++ rest) = Ok PNone (pos + 4) rest.
Proof. done. Qed.


Lemma join_cons sep p ps R :
  join sep (p :: ps) ++ R
  = p ++ match ps with [] => R | _ :: _ => sep ++ join sep ps ++ R end.
Proof. destruct ps; cbn [join]; by rewrite <- ?app_assoc. Qed.

Lemma skip_ws_space pos s : skip_ws pos (32%N :: s) = skip_ws (S pos) s.
Proof. done. Qed.

Lemma skip_ws_here pos c s : is_ws c = false → skip_ws pos (c :: s) = (pos, c :: s).
Proof. intros H. cbn [skip_ws]. by rewrite H. Qed.

(** The items of a list of strings, up to the closing bracket. *)
Lemma parse_items_strs l :
  ∀ fuel acc pos s0 rest,
    length l + 2 ≤ fuel →
    forallb is_scalar s0 = true →
    Forall (λ s, forallb is_scalar s = true) l →
    ∃ p, parse_items fuel acc pos
           (join (u ", ") (map dumps (PStr <$> s0 :: l)) ++ 93%N :: rest)
         = Ok (PList (reverse acc ++ (PStr <$> s0 :: l))) p rest.
Proof.
  induction l as [|s1 l IH]; intros fuel acc pos s0 rest Hfuel Hs0 Hl;
    (destruct fuel as [|fuel]; [simpl in Hfuel; lia|]).
  - cbn [fmap list_fmap map dumps join parse_items].
    destruct (scan_once_str fuel pos s0 (93%N :: rest)) as [p ->];
      [simpl in Hfuel; lia | done |].
    cbn [skip_ws]. change (is_ws 93) with false. cbn match.
    eexists. by rewrite reverse_cons.
  - apply Forall_cons in Hl as [Hs1 Hl].
    change (PStr <$> s0 :: s1 :: l) with (PStr s0 :: (PStr <$> s1 :: l)).
    cbn [map]. rewrite join_cons. cbn [dumps].
    change (map dumps (PStr <$> s1 :: l)) with (dumps_str s1 :: map dumps (PStr <$> l)).
    cbn match. change (u ", ") with [44%N; 32%N]. cbn [app].
    cbn [parse_items].
    destruct (scan_once_str fuel pos s0
                (44%N :: 32%N :: join [44%N; 32%N] (dumps_str s1 :: map dumps (PStr <$> l))
                                 ++ 93%N :: rest)) as [p ->];
      [simpl in Hfuel; lia | done |].
    cbn [skip_ws]. change (is_ws 44) with false. change (is_ws 32) with true.
    cbn match. rewrite join_cons. unfold dumps_str at 1. cbn [app].
    rewrite skip_ws_space, skip_ws_here by done.
    destruct (IH fuel (PStr s0 :: acc) (S (S p)) s1 rest) as [p' Hp'];
      [simpl in *; lia | done | done |].
    change (PStr <$> s1 :: l) with (PStr s1 :: (PStr <$> l)) in Hp'.
    cbn [map dumps] in Hp'. rewrite join_cons in Hp'.
    unfold dumps_str at 1 in Hp'. change (u ", ") with [44%N; 32%N] in Hp'.
    cbn [app] in Hp'. rewrite Hp'. eexists. by rewrite reverse_cons, <- app_assoc.
Qed.

Lemma scan_once_strs fuel pos l rest :
  length l + 2 ≤ fuel →
  Forall (λ s, forallb is_scalar s = true) l →
  ∃ p, scan_once fuel pos (dumps (PList (PStr <$> l)) ++ rest)
       = Ok (PList (PStr <$> l)) p rest.
Proof.
  intros Hfuel Hl. destruct fuel as [|fuel]; [lia|].
  cbn [dumps]. change (u "[") with [91%N]. change (u "]") with [93%N].
  rewrite <- !app_assoc. cbn [app scan_once].
  change (91 =? 34)%N with false. change (91 =? 123)%N with false.
  change (91 =? 91)%N with true. cbn match.
  destruct l as [|s0 l].
  - cbn. by eexists.
  - apply Forall_cons in Hl as [Hs0 Hl].
    change (PStr <$> s0 :: l) with (PStr s0 :: (PStr <$> l)).
    cbn [map dumps]. rewrite join_cons. unfold dumps_str at 1. cbn [app].
    rewrite skip_ws_here by done.
    destruct (parse_items_strs l fuel [] (S pos) s0 rest) as [p Hp];
      [simpl in *; lia | done | done |].
    change (PStr <$> s0 :: l) with (PStr s0 :: (PStr <$> l)) in Hp.
    cbn [map dumps] in Hp. rewrite join_cons in Hp.
    unfold dumps_str at 1 in Hp. cbn [app] in Hp.
    rewrite Hp. by eexists.
Qed.


Lemma solid_cons c s : is_ws c = false → solid (c :: s).
Proof. intros H q. by apply skip_ws_here. Qed.

Lemma solid_dumps_str k x : solid (dumps_str k ++ x).
Proof. unfold dumps_str. rewrite <- !app_assoc. by apply solid_cons. Qed.

(** One member of an object that is followed by another one. *)
Lemma parse_member_next fuel acc pos k V v nxt :
  forallb is_scalar k = true →
  solid (V ++ 44%N :: 32%N :: nxt) →
  solid nxt →
  (∀ q, ∃ p, scan_once fuel q (V ++ 44%N :: 32%N :: nxt)
             = Ok v p (44%N :: 32%N :: nxt)) →
  ∃ p, parse_members (S fuel) acc pos
         (dumps_str k ++ 58%N :: 32%N :: V ++ 44%N :: 32%N :: nxt)
       = parse_members fuel (dict_set acc k v) p nxt.
Proof.
  intros Hk HV Hnxt Hval. unfold dumps_str. rewrite <- !app_assoc.
  cbn [app parse_members]. rewrite (scanstring_dumps _ _ _ _ _ Hk).
  cbn [reverse rev_append app].
  rewrite skip_ws_here by done. rewrite skip_ws_space, HV.
  destruct (Hval (S (S (S (S pos + length (concat (escape_char <$> k)))))))
    as [p ->].
  rewrite skip_ws_here by done. rewrite skip_ws_space, Hnxt. by eexists.
Qed.

(** The last member of an object. *)
Lemma parse_member_last fuel acc pos k V v rest :
  forallb is_scalar k = true →
  solid (V ++ 125%N :: rest) →
  (∀ q, ∃ p, scan_once fuel q (V ++ 125%N :: rest) = Ok v p (125%N :: rest)) →
  ∃ p, parse_members (S fuel) acc pos (dumps_str k ++ 58%N :: 32%N :: V ++ 125%N :: rest)
       = Ok (PDict (dict_set acc k v)) p rest.
Proof.
  intros Hk HV Hval. unfold dumps_str. rewrite <- !app_assoc.
  cbn [app parse_members]. rewrite (scanstring_dumps _ _ _ _ _ Hk).
  cbn [reverse rev_append app].
  rewrite skip_ws_here by done. rewrite skip_ws_space, HV.
  destruct (Hval (S (S (S (S pos + length (concat (escape_char <$> k)))))))
    as [p ->].
  rewrite skip_ws_here by done. by eexists.
Qed.


Lemma reads_str fuel s rest :
  1 ≤ fuel → forallb is_scalar s = true → reads fuel (PStr s) rest.
Proof.
  intros Hfuel Hs. split; [apply solid_dumps_str|].
  intros q. by apply scan_once_str.
Qed.

Lemma reads_bool fuel b rest : 1 ≤ fuel → reads fuel (PBool b) rest.
Proof.
  intros Hfuel. destruct fuel as [|fuel]; [lia|]. split.
  - by destruct b; apply solid_cons.
  - intros q. rewrite scan_once_bool. by eexists.
Qed.

Lemma reads_none fuel rest : 1 ≤ fuel → reads fuel PNone rest.
Proof.
  intros Hfuel. destruct fuel as [|fuel]; [lia|]. split.
  - by apply solid_cons.
  - intros q. rewrite scan_once_null. by eexists.
Qed.

Lemma reads_strs fuel l rest :
  length l + 2 ≤ fuel →
  Forall (λ s, forallb is_scalar s = true) l →
  reads fuel (PList (PStr <$> l)) rest.
Proof.
  intros Hfuel Hl. split; [by apply solid_cons|].
  intros q. by apply scan_once_strs.
Qed.

Lemma reads_float fuel lit t rest :
  1 ≤ fuel → is_float_literal lit = true → is_delim t = true →
  reads fuel (PFloat lit) (t :: rest).
Proof.
  intros Hfuel Hlit Ht. split; [|intros q; by apply scan_once_float].
  assert (is_Some (match_number 0 lit)) as Hsome.
  { unfold is_float_literal in Hlit. destruct (match_number 0 lit); [eauto|done]. }
  apply match_number_head in Hsome as (c & s' & -> & Hhead).
  apply solid_cons.
  destruct Hhead as [Hc%is_digit_bounds | [-> _]]; [|done].
  unfold is_ws. repeat (apply orb_false_iff; split); apply N.eqb_neq; lia.
Qed.

Lemma dumps_object7 k1 v1 k2 v2 k3 v3 k4 v4 k5 v5 k6 v6 k7 v7 rest :
  dumps (PDict [(k1, v1); (k2, v2); (k3, v3); (k4, v4); (k5, v5); (k6, v6); (k7, v7)])
  ++ rest
  = 123%N ::
    dumps_str k1 ++ 58%N :: 32%N :: dumps v1 ++ 44%N :: 32%N ::
    dumps_str k2 ++ 58%N :: 32%N :: dumps v2 ++ 44%N :: 32%N ::
    dumps_str k3 ++ 58%N :: 32%N :: dumps v3 ++ 44%N :: 32%N ::
    dumps_str k4 ++ 58%N :: 32%N :: dumps v4 ++ 44%N :: 32%N ::
    dumps_str k5 ++ 58%N :: 32%N :: dumps v5 ++ 44%N :: 32%N ::
    dumps_str k6 ++ 58%N :: 32%N :: dumps v6 ++ 44%N :: 32%N ::
    dumps_str k7 ++ 58%N :: 32%N :: dumps v7 ++ 125%N :: rest.
Proof.
  cbn [dumps map join fst snd].
  change (u "{") with [123%N]. change (u "}") with [125%N].
  change (u ", ") with [44%N; 32%N]. change (u ": ") with [58%N; 32%N].
  by rewrite <- !app_assoc.
Qed.

Lemma scan_once_open fuel pos k x :
  scan_once (S fuel) pos (123%N :: dumps_str k ++ x)
  = parse_members fuel [] (S pos) (dumps_str k ++ x).
Proof. unfold dumps_str. by rewrite <- !app_assoc. Qed.


Lemma member_next fuel acc pos k v nxt :
  forallb is_scalar k = true → solid nxt →
  reads fuel v (44%N :: 32%N :: nxt) →
  ∃ p, parse_members (S fuel) acc pos
         (dumps_str k ++ 58%N :: 32%N :: dumps v ++ 44%N :: 32%N :: nxt)
       = parse_members fuel (dict_set acc k v) p nxt.
Proof. intros Hk Hnxt [HV Hval]. by apply parse_member_next. Qed.

Lemma member_last fuel acc pos k v rest :
  forallb is_scalar k = true →
  reads fuel v (125%N :: rest) →
  ∃ p, parse_members (S fuel) acc pos
         (dumps_str k ++ 58%N :: 32%N :: dumps v ++ 125%N :: rest)
       = Ok (PDict (dict_set acc k v)) p rest.
Proof. intros Hk [HV Hval]. by apply parse_member_last. Qed.

Lemma scan_once_classification fuel pos c rest :
  well_formed c = true →
  length (suggested_tags c) + 9 ≤ fuel →
  ∃ p, scan_once fuel pos (dumps (classification_object c) ++ rest)
       = Ok (classification_object c) p rest.
Proof.
  unfold well_formed. rewrite !andb_true_iff.
  intros (((((Hcat & Hpri) & Hesc) & Hrea) & Htags) & Hconf) Hfuel.
  assert (Forall (λ s, forallb is_scalar s = true) (suggested_tags c)) as Htags'.
  { apply Forall_forall. intros x Hx%list_elem_of_In.
    by apply (proj1 (forallb_forall _ _) Htags). }
  do 8 (destruct fuel as [|fuel]; [lia|]).
  unfold classification_object. rewrite dumps_object7, scan_once_open.
  destruct (member_next (S (S (S (S (S (S fuel)))))) [] (S pos)
              (u "category") (PStr (category c))
              (dumps_str (u "priority") ++ 58%N :: 32%N ::
               dumps (PStr (priority c)) ++ 44%N :: 32%N ::
               dumps_str (u "should_escalate") ++ 58%N :: 32%N ::
               dumps (PBool (should_escalate c)) ++ 44%N :: 32%N ::
               dumps_str (u "escalate_to") ++ 58%N :: 32%N ::
               dumps (from_option PStr PNone (escalate_to c)) ++ 44%N :: 32%N ::
               dumps_str (u "reasoning") ++ 58%N :: 32%N ::
               dumps (PStr (reasoning c)) ++ 44%N :: 32%N ::
               dumps_str (u "suggested_tags") ++ 58%N :: 32%N ::
               dumps (PList (PStr <$> suggested_tags c)) ++ 44%N :: 32%N ::
               dumps_str (u "confidence") ++ 58%N :: 32%N ::
               dumps (PFloat (confidence c)) ++ 125%N :: rest))
    as [p1 ->]; [done | apply solid_dumps_str | apply reads_str; [lia|done] |].
  edestruct member_next as [p2 ->];
    [| apply solid_dumps_str | apply reads_str; [|exact Hpri] |]; [done | lia |].
  edestruct member_next as [p3 ->];
    [| apply solid_dumps_str | apply reads_bool |]; [done | lia |].
  edestruct member_next as [p4 ->];
    [| apply solid_dumps_str
     | destruct (escalate_to c); [apply reads_str; [|exact Hesc] | apply reads_none];
       lia |]; [done|].
  edestruct member_next as [p5 ->];
    [| apply solid_dumps_str | apply reads_str; [|exact Hrea] |]; [done | lia |].
  edestruct member_next as [p6 ->];
    [| apply solid_dumps_str | apply reads_strs; [|exact Htags'] |]; [done | lia |].
  edestruct member_last as [p7 ->];
    [| apply reads_float; [|exact Hconf|done] |]; [done | lia |].
  by eexists.
Qed.


Lemma length_dumps_str x : 2 ≤ length (dumps_str x).
Proof. unfold dumps_str. rewrite !length_app. simpl. lia. Qed.

Lemma length_join_strs l :
  length l ≤ length (join (u ", ") (map dumps (PStr <$> l))).
Proof.
  induction l as [|x l IH]; [done|].
  change (PStr <$> x :: l) with (PStr x :: (PStr <$> l)).
  cbn [map dumps]. pose proof (length_dumps_str x).
  destruct l as [|y l].
  - cbn [fmap list_fmap map join length]. lia.
  - change (PStr <$> y :: l) with (PStr y :: (PStr <$> l)) in *.
    cbn [map] in *. cbn [join]. cbn [join] in IH.
    rewrite !length_app. cbn [length] in *. lia.
Qed.

(** The modelled decoder reads every well-formed classification back
    from the text the modelled encoder writes for it. *)
Lemma loads_dumps_classification c :
  well_formed c = true →
  loads (dumps (classification_object c)) = Ret (classification_object c).
Proof.
  intros Hwf. unfold loads.
  pose proof (dumps_object7
    (u "category") (PStr (category c)) (u "priority") (PStr (priority c))
    (u "should_escalate") (PBool (should_escalate c))
    (u "escalate_to") (from_option PStr PNone (escalate_to c))
    (u "reasoning") (PStr (reasoning c))
    (u "suggested_tags") (PList (PStr <$> suggested_tags c))
    (u "confidence") (PFloat (confidence c)) []) as Hs.
  rewrite app_nil_r in Hs. fold (classification_object c) in Hs.
  assert (length (suggested_tags c) + 9
          ≤ 2 * length (dumps (classification_object c)) + 2) as Hfuel.
  { rewrite Hs. cbn [dumps].
    repeat (progress (rewrite ?length_app; cbn [length])).
    pose proof (length_join_strs (suggested_tags c)). lia. }
  destruct (scan_once_classification _ 0 c [] Hwf Hfuel) as [p Hscan].
  rewrite app_nil_r in Hscan.
  assert (startswith [65279%N] (dumps (classification_object c)) = false) as ->
    by (by rewrite Hs).
  assert (skip_ws 0 (dumps (classification_object c))
          = (0, dumps (classification_object c))) as ->
    by (rewrite Hs; by apply skip_ws_here).
  by rewrite Hscan.
Qed.

End JsonFacts.

(** ** The codec: the decoder never runs out of fuel *)

Module JsonTotal.
Import Json.

Lemma skip_ws_length pos s : length (skip_ws pos s).2 ≤ length s.
Proof.
  revert pos. induction s as [|c s IH]; intros pos; [done|].
  cbn [skip_ws]. destruct (is_ws c); [|done]. specialize (IH (S pos)). simpl. lia.
Qed.

Lemma scanstring_total n :
  ∀ s b p acc, length s ≤ n →
    leaves (scanstring b p acc s) s 1 ∧ starved (scanstring b p acc s) = false.
Proof.
  induction n as [|n IH]; intros s b p acc Hn.
  - destruct s; [done | simpl in Hn; lia].
  - destruct s as [|c s1]; [done|]. simpl in Hn. cbn [scanstring].
    repeat case_match; subst; cbn [length] in *;
      try (split; [cbn [leaves length]; lia | reflexivity]);
      match goal with
      | |- context [scanstring ?b ?q ?a ?t] =>
          destruct (IH t b q a ltac:(cbn [length] in *; lia)) as [HA HB];
          split; [|exact HB];
          unfold leaves in *; destruct (scanstring b q a t); cbn [length] in *; lia
      end.
Qed.

Lemma span_digits_length s : length (span_digits s).2 ≤ length s.
Proof.
  pose proof (JsonFacts.span_digits_app s) as H.
  apply (f_equal length) in H. rewrite length_app in H. lia.
Qed.

Lemma scan_integer_length s ds r :
  scan_integer s = Some (ds, r) → length r < length s.
Proof.
  unfold scan_integer. destruct s as [|c s]; [done|].
  destruct (negb (is_digit c)); [done|].
  destruct (c =? 48)%N; [intros [= <- <-]; simpl; lia|].
  pose proof (span_digits_length s). destruct (span_digits s).
  intros [= <- <-]. simpl in *. lia.
Qed.

Lemma scan_fraction_length s : length (scan_fraction s).2 ≤ length s.
Proof.
  unfold scan_fraction. destruct s as [|c [|d s]]; [done..|].
  destruct ((c =? 46)%N && is_digit d); [|done].
  pose proof (span_digits_length s). destruct (span_digits s). simpl in *. lia.
Qed.

Lemma scan_exponent_length s : length (scan_exponent s).2 ≤ length s.
Proof.
  unfold scan_exponent. destruct s as [|e s]; [done|].
  destruct ((e =? 101) || (e =? 69))%N; [|done].
  destruct s as [|x s].
  - done.
  - destruct ((x =? 45) || (x =? 43))%N.
    + pose proof (span_digits_length s). destruct (span_digits s) as [[|??] ?];
        simpl in *; lia.
    + pose proof (span_digits_length (x :: s)).
      destruct (span_digits (x :: s)) as [[|??] ?]; simpl in *; lia.
Qed.

Lemma match_number_length pos s v n r :
  match_number pos s = Some (v, n, r) → length r < length s.
Proof.
  unfold match_number.
  assert (∀ sign s1, length s1 ≤ length s →
    match scan_integer s1 with
    | None => None
    | Some (int_digits, s3) =>
        let '(frac, s4) := scan_fraction s3 in
        let '(expo, s5) := scan_exponent s4 in
        let lit := sign ++ int_digits ++ frac ++ expo in
        Some (match frac, expo with
              | [], [] => PInt (int_of_literal lit)
              | _, _ => PFloat lit
              end, pos + length lit, s5)
    end = Some (v, n, r) → length r < length s) as Hbody.
  { intros sign s1 Hs1.
    destruct (scan_integer s1) as [[int_digits s3]|] eqn:Hint; [|done].
    apply scan_integer_length in Hint.
    pose proof (scan_fraction_length s3). destruct (scan_fraction s3) as [frac s4].
    pose proof (scan_exponent_length s4). destruct (scan_exponent s4) as [expo s5].
    intros [= <- <- <-]. simpl in *. lia. }
  destruct s as [|c s]; [done|].
  destruct (c =? 45)%N; apply Hbody; simpl; lia.
Qed.

Lemma scan_constant_length cs pos s v p r :
  Forall (λ c : string * pyval, 0 < length (u c.1)) cs →
  scan_constant cs pos s = Some (v, p, r) → length r < length s.
Proof.
  induction 1 as [|[name w] cs Hname _ IH]; [done|]. cbn [scan_constant].
  destruct (startswith (u name) s) eqn:Hst; [|done].
  intros [= <- <- <-]. apply startswith_length in Hst.
  rewrite length_drop. simpl in Hname. lia.
Qed.

Lemma constants_nonempty : Forall (λ c : string * pyval, 0 < length (u c.1)) constants.
Proof. repeat constructor. Qed.


(** With fuel for twice the length of the text, a scan never runs out
    of it; and a successful scan consumes at least one character. *)
Lemma scan_total fuel :
  (∀ pos s, leaves (scan_once fuel pos s) s 1
            ∧ (2 * length s + 1 ≤ fuel → starved (scan_once fuel pos s) = false))
  ∧ (∀ acc pos s, leaves (parse_items fuel acc pos s) s 1
            ∧ (2 * length s + 2 ≤ fuel → starved (parse_items fuel acc pos s) = false))
  ∧ (∀ acc pos s, leaves (parse_members fuel acc pos s) s 1
            ∧ (2 * length s + 2 ≤ fuel → starved (parse_members fuel acc pos s) = false)).
Proof.
  induction fuel as [|fuel IH].
  - repeat split; try done; intros; lia.
  - split; [|split].
    + intros pos s. cbn [scan_once].
      repeat case_match; subst; scan_facts (proj1 IH) skip_ws_length scanstring_total
        (λ p s v q r, scan_constant_length constants p s v q r constants_nonempty)
        match_number_length; unfold expecting_value;
        scan_leaf IH.
    + intros acc pos s. cbn [parse_items].
      repeat case_match; subst; scan_facts (proj1 IH) skip_ws_length scanstring_total
        (λ p s v q r, scan_constant_length constants p s v q r constants_nonempty)
        match_number_length; scan_leaf IH.
    + intros acc pos s. cbn [parse_members].
      repeat case_match; subst; scan_facts (proj1 IH) skip_ws_length scanstring_total
        (λ p s v q r, scan_constant_length constants p s v q r constants_nonempty)
        match_number_length; scan_leaf IH.
Qed.


(** [loads] gives every text fuel enough: the answer is never the one
    of a scan left without fuel. *)
Lemma loads_fuel_enough s pos :
  starved (scan_once (2 * length s + 2) (skip_ws pos s).1 (skip_ws pos s).2) = false.
Proof.
  apply (proj1 (scan_total _)). pose proof (skip_ws_length pos s). lia.
Qed.

End JsonTotal.

(** ** Construction, and the round trip through the contract *)

(** C7 (as amended).  When [GEMINI_API_KEY] is absent from the
    environment, or set to the empty string, the constructor raises
    the configuration error; the application then holds no classifier,
    reports it as not ready, and answers every classification request
    with the "not initialized" error and status 500, sending
    nothing.  When the key is set to a non-empty string, the
    constructor returns a classifier configured with it. *)
Theorem classifier_construction (env : gmap str str) :
  match env !! u "GEMINI_API_KEY" with
  | None | Some [] =>
      AgentClassifier_init env
      = Raise (Exn ValueError (u "GEMINI_API_KEY not found in .env file"))
      ∧ app_classifier env = None
      ∧ health (app_classifier env) !! u "classifier_ready" = Some (PBool false)
      ∧ ∀ (E : External) ticket_data w,
          classify_route (app_classifier env) ticket_data w
          = (Ret ({[ u "success" := PBool false;
                     u "error" := PStr (u "Classifier not initialized") ]}, 500), w)
  | Some (c :: key) =>
      AgentClassifier_init env
      = Ret {| model := {| model_name := u "gemini-2.0-flash-exp";
                           api_key := c :: key |} |}
      ∧ health (app_classifier env) !! u "classifier_ready" = Some (PBool true)
  end.
Proof.
  unfold app_classifier, AgentClassifier_init, os_getenv.
  destruct (env !! u "GEMINI_API_KEY") as [[|c key]|]; simpl; done.
Qed.

Lemma rstrip_snoc s c : isspace c = false → rstrip (s ++ [c]) = s ++ [c].
Proof.
  intros Hc. induction s as [|a s IH]; simpl.
  - by rewrite Hc.
  - rewrite IH. by destruct s.
Qed.

(** Trimming leaves a text alone when its ends are not blank. *)
Lemma strip_id a s b :
  isspace a = false → isspace b = false →
  strip (a :: s ++ [b]) = a :: s ++ [b].
Proof.
  intros Ha Hb. unfold strip. cbn [lstrip]. rewrite Ha.
  apply (rstrip_snoc (a :: s) b Hb).
Qed.

Lemma dumps_object_strip members :
  strip (Json.dumps (PDict members)) = Json.dumps (PDict members).
Proof.
  cbn [Json.dumps]. change (u "{") with [123%N]. change (u "}") with [125%N].
  simpl app at 1. by apply strip_id.
Qed.

(** The JSON marker begins with a fence. *)
Lemma py_in_fence_json s : py_in fence s = false → py_in fence_json s = false.
Proof.
  unfold py_in. destruct (find fence s) eqn:Hf; [done|]. intros _.
  destruct (find fence_json s) as [i|] eqn:Hj; [|done].
  apply find_Some in Hj as [Hj _]. pose proof (find_None _ _ i Hf) as Hn.
  change fence_json with (fence ++ u "json") in Hj.
  apply startswith_app_l in Hj. congruence.
Qed.

(** A text without fence and without blank ends reaches the decoder
    as it is. *)
Lemma parser_input_plain s :
  strip s = s → py_in fence s = false → parser_input s = s.
Proof.
  intros Hs Hf. unfold parser_input. rewrite Hs, Hf.
  by rewrite (py_in_fence_json _ Hf).
Qed.

(** The contract adds nothing to the decoder on a text without fence:
    for any decoder that reads the object back from its JSON text, the
    object comes out of [classify_ticket] as it is. *)
Lemma round_trip_any_decoder `{External} self ticket w prompt ticket_id
    (c : Classification) :
  full_prompt ticket = Ret prompt →
  ticket !! u "id" = Some ticket_id →
  generate_content (model self) (sent w) prompt
  = Ret {| text := Ret (Json.dumps (classification_object c)) |} →
  json_loads (Json.dumps (classification_object c)) = Ret (classification_object c) →
  py_in fence (Json.dumps (classification_object c)) = false →
  classify_ticket self ticket w
  = (Ret (success_result ticket_id (classification_object c)),
     World (sent w ++ [prompt]) (stdout w)).
Proof.
  intros Hp Hid Hgen Hloads Hfence.
  assert (parser_input (Json.dumps (classification_object c))
          = Json.dumps (classification_object c)) as Hin
    by (apply parser_input_plain; [apply dumps_object_strip | done]).
  rewrite (classify_ticket_eq _ _ _ _ _ Hp Hid), Hgen. unfold result_of.
  cbn [text]. by rewrite Hin, Hloads.
Qed.

(** C8 (as amended).  For every classification object with all its
    fields populated (texts of Unicode scalar values, a finite float
    as confidence) whose JSON text contains no triple backtick: when
    the remote model answers with the text [json.dumps] writes for
    the object, [classify_ticket], decoding with [json.loads], returns
    a success result whose classification is the object itself, field
    for field. *)
Theorem round_trip_without_fence `{External} self ticket w prompt ticket_id
    (c : Classification) :
  (∀ s, json_loads s = Json.loads s) →
  full_prompt ticket = Ret prompt →
  ticket !! u "id" = Some ticket_id →
  generate_content (model self) (sent w) prompt
  = Ret {| text := Ret (Json.dumps (classification_object c)) |} →
  well_formed c = true →
  py_in fence (Json.dumps (classification_object c)) = false →
  classify_ticket self ticket w
  = (Ret {[ u "success" := PBool true;
            u "ticket_id" := ticket_id;
            u "classification" := classification_object c ]},
     World (sent w ++ [prompt]) (stdout w)).
Proof.
  intros Hdec Hp Hid Hgen Hwf Hfence.
  apply round_trip_any_decoder; try done.
  rewrite Hdec. by apply JsonFacts.loads_dumps_classification.
Qed.

(** ** Worked examples *)

(** C1, the claim as worded.  On the usual fenced reply the content
    between the fence pair is the object with its line breaks, while
    the decoder is handed the object alone: the content is trimmed
    again.  On a reply cut before its closing fence there is no fence
    pair, yet the decoder is handed what follows the marker, not the
    trimmed reply. *)
Lemma claimed_parser_input_differs :
  strip_fences (strip fenced_reply) = Ret (u "{}")
  ∧ claimed_parser_input fenced_reply = nl ++ u "{}" ++ nl
  ∧ strip_fences (strip fenced_reply) ≠ Ret (claimed_parser_input fenced_reply)
  ∧ strip_fences (strip unclosed_reply) = Ret (u "{}")
  ∧ claimed_parser_input unclosed_reply = unclosed_reply
  ∧ strip_fences (strip unclosed_reply)
    ≠ Ret (strip (claimed_parser_input unclosed_reply)).
Proof. repeat split; by vm_compute. Qed.

(** [split] on the JSON marker cuts before looking for the closing
    fence: a fourth backtick before a second marker stays in the
    text. *)
Example second_marker_cuts_first :
  strip_fences (u "```json1````json 2```") = Ret (u "1`")
  ∧ fence_pair_content fence_json (u "```json1````json 2```") = Some (u "1").
Proof. split; by vm_compute. Qed.

Lemma parser_input_correct_witness :
  strip_fences (strip fenced_reply) = Ret (parser_input fenced_reply)
  ∧ (@classify_try (scripted [says fenced_reply]) sample_classifier
       sample_ticket sample_prompt w0).1
    = Ret (Some (parser_input fenced_reply),
           let* classification := Json.loads (parser_input fenced_reply) in
           let* ticket_id := getitem sample_ticket (u "id") in
           Ret (success_result ticket_id classification)).
Proof.
  apply (@parser_input_correct (scripted [says fenced_reply])
           sample_classifier sample_ticket w0 sample_prompt fenced_reply).
  reflexivity.
Defined.

(** C3, the claim as worded.  The [raw_response] of a parse failure is
    neither the reply as received nor the untrimmed content between
    its fences: it is the trimmed content. *)
Lemma raw_response_is_stripped :
  ∃ result w',
    @classify_ticket (scripted [says fenced_apology]) sample_classifier
      sample_ticket w0 = (Ret result, w')
    ∧ result !! u "success" = Some (PBool false)
    ∧ result !! u "raw_response" = Some (PStr (u "Sorry, I cannot help."))
    ∧ u "Sorry, I cannot help." ≠ fenced_apology
    ∧ claimed_parser_input fenced_apology = nl ++ u "Sorry, I cannot help." ++ nl
    ∧ u "Sorry, I cannot help." ≠ claimed_parser_input fenced_apology.
Proof. do 2 eexists. repeat split; by vm_compute. Qed.

Lemma parse_failure_result_witness :
  @classify_ticket (scripted [says fenced_apology]) sample_classifier
    sample_ticket w0
  = (Ret {[ u "success" := PBool false;
            u "ticket_id" := PStr (u "TKT-001");
            u "error" :=
              PStr (u "Failed to parse JSON response: "
                    ++ exn_str (Exn JSONDecodeError
                                  (u "Expecting value: line 1 column 1 (char 0)")));
            u "raw_response" := PStr (parser_input fenced_apology) ]},
     World (sent w0 ++ [sample_prompt]) (stdout w0)).
Proof.
  apply (@parse_failure_result (scripted [says fenced_apology])
           sample_classifier sample_ticket w0 sample_prompt);
    vm_compute; reflexivity.
Defined.

Lemma api_failure_result_witness :
  ∃ result,
    @classify_ticket (scripted [Raise quota_error]) sample_classifier
      sample_ticket w0
    = (Ret result, World (sent w0 ++ [sample_prompt]) (stdout w0))
    ∧ result = {[ u "success" := PBool false;
                  u "ticket_id" := PStr (u "TKT-001");
                  u "error" := PStr (u "API error: " ++ exn_str quota_error) ]}
    ∧ result !! u "raw_response" = None.
Proof.
  apply (@api_failure_result (scripted [Raise quota_error])
           sample_classifier sample_ticket w0 sample_prompt).
  - vm_compute; reflexivity.
  - vm_compute; reflexivity.
  - discriminate.
  - left. reflexivity.
Defined.

Lemma missing_field_raises_witness :
  ∃ k, k ∈ required_fields ∧ ticket_without_subject !! k = None
       ∧ @classify_ticket (scripted [says number_reply]) sample_classifier
           ticket_without_subject w0
         = (Raise (Exn KeyError (u "'" ++ k ++ u "'")), w0).
Proof.
  apply (@missing_field_raises (scripted [says number_reply])).
  exists (u "subject"). split; [|vm_compute; reflexivity].
  unfold required_fields. apply list_elem_of_further, list_elem_of_here.
Defined.

Lemma success_result_verbatim_witness :
  @classify_ticket (scripted [says fenced_reply]) sample_classifier
    sample_ticket w0
  = (Ret {[ u "success" := PBool true;
            u "ticket_id" := PStr (u "TKT-001");
            u "classification" := PDict [] ]},
     World (sent w0 ++ [sample_prompt]) (stdout w0)).
Proof.
  apply (@success_result_verbatim (scripted [says fenced_reply])
           sample_classifier sample_ticket w0 sample_prompt _ fenced_reply);
    vm_compute; reflexivity.
Defined.

Lemma non_object_is_success_witness :
  ∃ result,
    @classify_ticket (scripted [says number_reply]) sample_classifier
      sample_ticket w0
    = (Ret result, World (sent w0 ++ [sample_prompt]) (stdout w0))
    ∧ result !! u "success" = Some (PBool true)
    ∧ result !! u "classification" = Some (PInt 42)
    ∧ result !! u "error" = None.
Proof.
  apply (@non_object_is_success (scripted [says number_reply])
           sample_classifier sample_ticket w0 sample_prompt
           (PStr (u "TKT-001")) number_reply (PInt 42)).
  - vm_compute; reflexivity.
  - vm_compute; reflexivity.
  - reflexivity.
  - vm_compute; reflexivity.
  - discriminate.
Defined.

Lemma result_shape_witness :
  let result := success_result (PStr (u "TKT-001")) (PInt 42) in
  result !! u "ticket_id" = Some (PStr (u "TKT-001"))
  ∧ ∃ b, result !! u "success" = Some (PBool b)
         ∧ (is_Some (result !! u "classification") ↔ b = true)
         ∧ ((∃ message, result !! u "error" = Some (PStr message)) ↔ b = false).
Proof.
  apply (@result_shape (scripted [says number_reply]) sample_classifier
           sample_ticket w0 (PStr (u "TKT-001")) _
           (World (sent w0 ++ [sample_prompt]) (stdout w0)));
    vm_compute; reflexivity.
Defined.

Lemma sample_ticket_has_fields : has_required_fields sample_ticket.
Proof. repeat (constructor; [by eexists|]). constructor. Defined.


(** The same batch, evaluated: one success and two failures, in the
    order of the tickets, three requests, and "1/3" in the summary. *)
Example process_batch_mixed :
  let run :=
    @process_batch (scripted [says number_reply; says fenced_apology])
      sample_classifier [sample_ticket; sample_ticket; sample_ticket] w0 in
  run.1 = Ret [ success_result (PStr (u "TKT-001")) (PInt 42);
                parse_failure (PStr (u "TKT-001"))
                  (u "Expecting value: line 1 column 1 (char 0)")
                  (PStr (u "Sorry, I cannot help."));
                api_failure (PStr (u "TKT-001")) (u "connection refused") ]
  ∧ sent run.2 = [sample_prompt; sample_prompt; sample_prompt]
  ∧ length (stdout run.2) = 12
  ∧ stdout run.2 !! 10
    = Some (u "SUMMARY: 1/3 tickets classified successfully" ++ nl).
Proof. repeat split; vm_compute; reflexivity. Qed.

(** The empty batch: no result, no request, "0/0". *)
Example process_batch_empty (E : External) self w :
  process_batch self [] w
  = (Ret [],
     World (sent w)
           (stdout w
            ++ [ nl ++ rule ++ nl;
                 u "PROCESSING 0 TICKETS WITH GEMINI" ++ nl;
                 rule ++ nl ++ nl;
                 nl ++ rule ++ nl;
                 u "SUMMARY: 0/0 tickets classified successfully" ++ nl;
                 rule ++ nl ++ nl ])).
Proof.
  unfold process_batch, bind, print, lift, ret. cbn [batch_loop count_success sent stdout].
  unfold ret. cbn [sent stdout]. f_equal. f_equal.
  rewrite <- !app_assoc. f_equal.
Qed.

(** C7, the claim as worded.  The key is present in the environment
    and the constructor raises the configuration error all the same,
    because the key is empty. *)
Lemma empty_credential_is_refused :
  is_Some (env_empty_key !! u "GEMINI_API_KEY")
  ∧ AgentClassifier_init env_empty_key
    = Raise (Exn ValueError (u "GEMINI_API_KEY not found in .env file"))
  ∧ app_classifier env_empty_key = None.
Proof. split; [by eexists | split; by vm_compute]. Qed.

Example non_empty_credential_is_accepted :
  AgentClassifier_init env_with_key = Ret sample_classifier.
Proof. by vm_compute. Qed.

(** C8, the claim as worded.  A classification with every field
    populated, whose reasoning quotes a fence: the decoder reads the
    object back from its JSON text, but [classify_ticket], given that
    text as the reply, cuts the word between the backticks out of it
    and returns a parse failure. *)
Lemma fence_in_reasoning_breaks_round_trip :
  Json.loads (Json.dumps (classification_object fenced_classification))
  = Ret (classification_object fenced_classification)
  ∧ ∃ result w',
      @classify_ticket
        (scripted [says (Json.dumps (classification_object fenced_classification))])
        sample_classifier sample_ticket w0 = (Ret result, w')
      ∧ result !! u "success" = Some (PBool false)
      ∧ result !! u "classification" = None
      ∧ result !! u "raw_response" = Some (PStr (u "Traceback")).
Proof. split; [by vm_compute|]. do 2 eexists. repeat split; by vm_compute. Qed.

(** Why the texts of a classification must be scalar values: the
    encoder writes the two halves of a surrogate pair one by one, and
    the decoder joins them into one character. *)
Example surrogate_pair_is_joined :
  Json.loads (Json.dumps (PStr [55357; 56832]%N)) = Ret (PStr [128512%N]).
Proof. by vm_compute. Qed.

Lemma round_trip_without_fence_witness :
  @classify_ticket
    (scripted [says (Json.dumps (classification_object sample_classification))])
    sample_classifier sample_ticket w0
  = (Ret {[ u "success" := PBool true;
            u "ticket_id" := PStr (u "TKT-001");
            u "classification" := classification_object sample_classification ]},
     World (sent w0 ++ [sample_prompt]) (stdout w0)).
Proof.
  apply (@round_trip_without_fence
           (scripted [says (Json.dumps (classification_object sample_classification))])
           sample_classifier sample_ticket w0 sample_prompt).
  - done.
  - vm_compute; reflexivity.
  - vm_compute; reflexivity.
  - reflexivity.
  - vm_compute; reflexivity.
  - vm_compute; reflexivity.
Defined.

(** * Further properties *)

(** ** More on the text primitives *)

Lemma find_None_iff sep s :
  find sep s = None ↔ ∀ j, startswith sep (drop j s) = false.
Proof.
  split; [intros H j; by apply find_None|].
  intros H. destruct (find sep s) as [i|] eqn:E; [|done].
  apply find_Some in E as [E _]. by rewrite H in E.
Qed.

Lemma find_None_drop sep s n : find sep s = None → find sep (drop n s) = None.
Proof.
  rewrite !find_None_iff. intros H j. rewrite drop_drop. apply H.
Qed.

Lemma find_None_take sep s n : find sep s = None → find sep (take n s) = None.
Proof.
  rewrite !find_None_iff. intros H j.
  destruct (startswith sep (drop j (take n s))) eqn:E; [|done].
  rewrite skipn_firstn_comm in E. apply startswith_take in E. by rewrite H in E.
Qed.

Lemma lstrip_drop s : ∃ k, lstrip s = drop k s.
Proof.
  induction s as [|c s [k IH]]; [by exists 0|]. cbn [lstrip].
  destruct (isspace c); [by exists (S k) | by exists 0].
Qed.

Lemma rstrip_take s : ∃ k, rstrip s = take k s.
Proof.
  induction s as [|c s [k IH]]; [by exists 0|]. cbn [rstrip]. rewrite IH.
  destruct (take k s) eqn:E.
  - destruct (isspace c); [by exists 0 | by exists 1; destruct s].
  - exists (S k). cbn [take]. by rewrite E.
Qed.

(** Trimming a text without [sep] gives a text without [sep]. *)
Lemma find_None_strip sep s : find sep s = None → find sep (strip s) = None.
Proof.
  intros H. unfold strip. destruct (lstrip_drop s) as [k ->].
  destruct (rstrip_take (drop k s)) as [k' ->].
  by apply find_None_take, find_None_drop.
Qed.

Lemma find_before_None sep s : sep ≠ [] → find sep (before sep s) = None.
Proof.
  intros Hsep. unfold before. destruct (find sep s) eqn:E; [|done].
  by apply find_take_None.
Qed.

(** The text handed to the decoder never contains a triple backtick. *)
Lemma parser_input_no_fence raw : py_in fence (parser_input raw) = false.
Proof.
  assert (∀ s, find fence s = None → py_in fence s = false) as Hin
    by (intros s H; unfold py_in; by rewrite H).
  unfold parser_input. destruct (py_in fence_json (strip raw)).
  - apply Hin, find_None_strip, find_before_None, fence_nonempty.
  - destruct (py_in fence (strip raw)) eqn:E; [|done].
    apply Hin, find_None_strip, find_before_None, fence_nonempty.
Qed.

Lemma rstrip_idem s : rstrip (rstrip s) = rstrip s.
Proof.
  induction s as [|c s IH]; [done|]. cbn [rstrip].
  destruct (rstrip s) as [|d r] eqn:E.
  - destruct (isspace c) eqn:Ec; [done|]. cbn [rstrip]. by rewrite Ec.
  - cbn [rstrip]. cbn [rstrip] in IH. by rewrite IH.
Qed.

Lemma lstrip_head s : match lstrip s with [] => True | c :: _ => isspace c = false end.
Proof.
  induction s as [|c s IH]; [done|]. cbn [lstrip].
  destruct (isspace c) eqn:E; [done|]. done.
Qed.

Lemma lstrip_fixed c s : isspace c = false → lstrip (c :: s) = c :: s.
Proof. intros H. cbn. by rewrite H. Qed.

Lemma rstrip_head c s : isspace c = false → ∃ r, rstrip (c :: s) = c :: r.
Proof.
  intros H. cbn [rstrip]. destruct (rstrip s); [rewrite H|]; eauto.
Qed.

(** Trimming twice is trimming once. *)
Lemma strip_idem s : strip (strip s) = strip s.
Proof.
  unfold strip. pose proof (lstrip_head s) as Hh.
  destruct (lstrip s) as [|c l]; [done|].
  destruct (rstrip_head c l Hh) as [r Hr]. rewrite Hr.
  rewrite (lstrip_fixed _ _ Hh), <- Hr. apply rstrip_idem.
Qed.

(** The text handed to the decoder has no blank at either end. *)
Lemma parser_input_trimmed raw : strip (parser_input raw) = parser_input raw.
Proof.
  unfold parser_input.
  destruct (py_in fence_json (strip raw)); [apply strip_idem|].
  destruct (py_in fence (strip raw)); apply strip_idem.
Qed.

Lemma rstrip_fixed_tail c s : rstrip (c :: s) = c :: s → rstrip s = s.
Proof.
  cbn [rstrip]. destruct (rstrip s) as [|d r] eqn:E.
  - destruct (isspace c); [done|]. by intros [= <-].
  - by intros [= <-].
Qed.

Lemma rstrip_fixed_drop s i : rstrip s = s → rstrip (drop i s) = drop i s.
Proof.
  revert s. induction i as [|i IH]; intros s H; [done|].
  destruct s as [|c s]; [done|]. cbn [drop]. apply IH.
  by apply rstrip_fixed_tail in H.
Qed.

Lemma startswith_find_0 sep s : startswith sep s = true → find sep s = Some 0.
Proof. intros H. destruct s; cbn [find]; by rewrite H. Qed.

(** A text that begins with the JSON marker and was cut out of a
    trimmed text is itself trimmed. *)
Lemma strip_drop_marker t i :
  strip t = t → find fence_json t = Some i → strip (drop i t) = drop i t.
Proof.
  intros Ht Hi. apply find_Some in Hi as [Hi _].
  assert (rstrip t = t) as Hr.
  { rewrite <- Ht at 1. unfold strip. rewrite rstrip_idem. exact Ht. }
  unfold strip. destruct (drop i t) as [|c s] eqn:E; [done|].
  assert (c = 96%N) as ->.
  { cbn in Hi. apply andb_true_iff in Hi as [Hc _]. by apply N.eqb_eq in Hc. }
  rewrite lstrip_fixed by done. rewrite <- E. by apply rstrip_fixed_drop.
Qed.

(** Whatever stands before the first JSON marker, other fenced blocks
    included, has no part in the text handed to the decoder. *)
Lemma parser_input_drop_marker raw i :
  find fence_json (strip raw) = Some i →
  parser_input raw = parser_input (drop i (strip raw)).
Proof.
  intros Hi. pose proof (find_Some _ _ _ Hi) as [Hst _].
  unfold parser_input at 2.
  rewrite (strip_drop_marker _ _ (strip_idem raw) Hi).
  unfold parser_input, py_in, after.
  rewrite Hi, (startswith_find_0 _ _ Hst). cbn [Nat.add].
  by rewrite drop_drop.
Qed.

Lemma find_is_Some sep s j :
  startswith sep (drop j s) = true →
  (∀ k, k < j → startswith sep (drop k s) = false) →
  find sep s = Some j.
Proof.
  intros Hj Hmin. destruct (find sep s) as [i|] eqn:E.
  - apply find_Some in E as [Hi Himin]. f_equal.
    destruct (Nat.lt_trichotomy i j) as [H|[H|H]]; [|done|].
    + by rewrite (Hmin i H) in Hi.
    + by rewrite (Himin j H) in Hj.
  - by rewrite (find_None _ _ j E) in Hj.
Qed.

Lemma startswith_take_ge p s n :
  startswith p s = true → length p ≤ n → startswith p (take n s) = true.
Proof.
  revert s n. induction p as [|a p IH]; intros [|b s] [|n]; simpl; try done; try lia.
  intros [-> H]%andb_true_iff Hn. simpl. apply IH; [done | lia].
Qed.

(** An occurrence that lies within the first [q] code points is found
    in them. *)
Lemma find_take_Some sep s j q :
  find sep s = Some j → j + length sep ≤ q → find sep (take q s) = Some j.
Proof.
  intros [Hj Hmin]%find_Some Hq. apply find_is_Some.
  - rewrite skipn_firstn_comm. apply startswith_take_ge; [done | lia].
  - intros k Hk. destruct (startswith sep (drop k (take q s))) eqn:E; [|done].
    rewrite skipn_firstn_comm in E. apply startswith_take in E.
    by rewrite (Hmin k Hk) in E.
Qed.

(** A reply cut before its closing fence: all that follows the JSON
    marker is handed to the decoder, trimmed. *)
Lemma parser_input_unclosed raw i :
  find fence_json (strip raw) = Some i →
  find fence (drop (i + 7) (strip raw)) = None →
  parser_input raw = strip (drop (i + 7) (strip raw)).
Proof.
  intros Hi Hnone. unfold parser_input, py_in, after, before. rewrite Hi.
  change (length fence_json) with 7.
  assert (find fence_json (drop (i + 7) (strip raw)) = None) as ->.
  { pose proof (py_in_fence_json (drop (i + 7) (strip raw))) as H.
    unfold py_in in H. rewrite Hnone in H. specialize (H eq_refl).
    by destruct (find fence_json (drop (i + 7) (strip raw))). }
  by rewrite Hnone.
Qed.

(** A closed JSON fence: the content up to the first triple backtick
    after the marker is handed to the decoder, trimmed, provided no
    second marker begins inside that closing fence. *)
Lemma parser_input_closed raw i j :
  find fence_json (strip raw) = Some i →
  find fence (drop (i + 7) (strip raw)) = Some j →
  (∀ q, find fence_json (drop (i + 7) (strip raw)) = Some q → q = j ∨ j + 3 ≤ q) →
  parser_input raw = strip (take j (drop (i + 7) (strip raw))).
Proof.
  intros Hi Hj Hq. unfold parser_input, py_in, after. rewrite Hi.
  change (length fence_json) with 7. set (rest := drop (i + 7) (strip raw)) in *.
  f_equal. unfold before at 2.
  destruct (find fence_json rest) as [q|] eqn:Eq.
  - destruct (Hq q eq_refl) as [-> | Hge].
    + unfold before. by rewrite (find_take_None _ _ _ fence_nonempty Hj).
    + unfold before. rewrite (find_take_Some _ _ _ q Hj) by (simpl; lia).
      rewrite take_take. f_equal. lia.
  - unfold before. by rewrite Hj.
Qed.

(** X1.  The extraction of [classify_ticket] leaves a clean text: it never
    raises, its result holds no triple backtick and no blank at either
    end, and extracting again changes nothing. *)
Theorem extracted_text_clean raw :
  ∃ t, strip_fences (strip raw) = Ret t
       ∧ py_in fence t = false
       ∧ strip t = t
       ∧ strip_fences t = Ret t.
Proof.
  exists (parser_input raw). split; [apply strip_fences_spec|].
  pose proof (parser_input_no_fence raw) as Hf.
  split; [done|]. split; [apply parser_input_trimmed|].
  unfold strip_fences. by rewrite (py_in_fence_json _ Hf), Hf.
Qed.

(** X2.  Whatever stands before the first JSON marker of the reply, other
    fenced blocks included, has no part in the text handed to the
    decoder. *)
Theorem text_before_marker_ignored raw i :
  find fence_json (strip raw) = Some i →
  strip_fences (strip raw) = strip_fences (drop i (strip raw)).
Proof.
  intros Hi. rewrite strip_fences_spec, (parser_input_drop_marker _ _ Hi).
  rewrite <- (strip_drop_marker _ _ (strip_idem raw) Hi) at 2.
  by rewrite strip_fences_spec.
Qed.

(** X4.  A reply cut before its closing fence: all that follows the JSON
    marker is handed to the decoder, trimmed. *)
Theorem unclosed_fence_content raw i :
  find fence_json (strip raw) = Some i →
  find fence (drop (i + 7) (strip raw)) = None →
  strip_fences (strip raw) = Ret (strip (drop (i + 7) (strip raw))).
Proof.
  intros Hi Hnone. by rewrite strip_fences_spec, (parser_input_unclosed _ _ Hi Hnone).
Qed.

(** X3.  A closed JSON fence: the content between the marker and the first
    triple backtick after it is handed to the decoder, trimmed, and
    what follows is dropped, provided no second marker begins inside
    that closing fence. *)
Theorem closed_fence_content raw i j :
  find fence_json (strip raw) = Some i →
  find fence (drop (i + 7) (strip raw)) = Some j →
  (∀ q, find fence_json (drop (i + 7) (strip raw)) = Some q → q = j ∨ j + 3 ≤ q) →
  strip_fences (strip raw) = Ret (strip (take j (drop (i + 7) (strip raw)))).
Proof.
  intros Hi Hj Hq. by rewrite strip_fences_spec, (parser_input_closed _ _ _ Hi Hj Hq).
Qed.

(** ** More on [classify_ticket] *)

Lemma startswith_app p s : startswith p (p ++ s) = true.
Proof. induction p as [|c p IH]; [by destruct s|]. simpl. by rewrite N.eqb_refl. Qed.

Lemma py_in_head x b : py_in x (x ++ b) = true.
Proof.
  unfold py_in. destruct (find x (x ++ b)) eqn:E; [done|].
  pose proof (find_None _ _ 0 E) as Hn. by rewrite drop_0, startswith_app in Hn.
Qed.

Lemma py_in_app_r x a s : py_in x s = true → py_in x (a ++ s) = true.
Proof.
  unfold py_in. destruct (find x s) as [i|] eqn:Hs; [intros _|done].
  apply find_Some in Hs as [Hi _].
  destruct (find x (a ++ s)) eqn:E; [done|].
  pose proof (find_None _ _ (length a + i) E) as Hn.
  rewrite <- drop_drop, drop_app_length in Hn. congruence.
Qed.

(** The places of six texts in a prompt of the shape [full_prompt]
    builds. *)
Lemma prompt_shape (P h1 h2 h3 h4 h5 h6 h7 x1 x2 x3 x4 x5 x6 tail : str) :
  let prompt := P ++ nl ++ nl ++ h1 ++ nl ++ nl ++ h2 ++ x1 ++ nl ++ h3 ++ x2
                ++ nl ++ h4 ++ x3 ++ nl ++ h5 ++ x4 ++ nl ++ h6 ++ x5
                ++ nl ++ h7 ++ x6 ++ nl ++ nl ++ tail in
  startswith P prompt = true
  ∧ Forall (λ x, py_in x prompt = true) [x1; x2; x3; x4; x5; x6].
Proof.
  intros prompt. split; [apply startswith_app|].
  repeat (constructor;
          [unfold prompt; repeat first [apply py_in_head | apply py_in_app_r]|]).
  constructor.
Qed.

Lemma Ret_inj {A} (a b : A) : Ret a = Ret b → a = b.
Proof. by intros [= ->]. Qed.

Section ContractMore.
Context `{External}.
Implicit Types (self : AgentClassifier) (ticket : gmap str pyval) (w : world).

(** X5.  [classify_ticket] prints nothing.  With the six fields present it
    sends one request, no more even when the request fails, and
    returns a result whatever happens; otherwise it sends nothing and
    raises. *)
Theorem classify_ticket_effects self ticket w :
  stdout (classify_ticket self ticket w).2 = stdout w
  ∧ match full_prompt ticket with
    | Ret prompt =>
        sent (classify_ticket self ticket w).2 = sent w ++ [prompt]
        ∧ ∃ result, (classify_ticket self ticket w).1 = Ret result
    | Raise e => classify_ticket self ticket w = (Raise e, w)
    end.
Proof.
  destruct (full_prompt ticket) as [prompt|e] eqn:Hp.
  - destruct (full_prompt_id _ _ Hp) as [ticket_id Hid].
    rewrite (classify_ticket_eq _ _ _ _ _ Hp Hid). cbn. eauto.
  - unfold classify_ticket, bind, lift. by rewrite Hp.
Qed.

(** X6.  When it is the request, or the reading of its text, that raises a
    [JSONDecodeError], no text was extracted yet: the parse failure
    carries [None] as [raw_response]. *)
Theorem request_decode_error self ticket w prompt ticket_id e :
  full_prompt ticket = Ret prompt →
  ticket !! u "id" = Some ticket_id →
  exn_class_of e = JSONDecodeError →
  generate_content (model self) (sent w) prompt = Raise e
  ∨ (∃ response, generate_content (model self) (sent w) prompt = Ret response
                 ∧ text response = Raise e) →
  classify_ticket self ticket w
  = (Ret {[ u "success" := PBool false;
            u "ticket_id" := ticket_id;
            u "error" := PStr (u "Failed to parse JSON response: " ++ exn_str e);
            u "raw_response" := PNone ]},
     World (sent w ++ [prompt]) (stdout w)).
Proof.
  intros Hp Hid Hcls Hfail.
  rewrite (classify_ticket_eq _ _ _ _ _ Hp Hid). do 2 f_equal.
  unfold result_of.
  destruct Hfail as [-> | (response & -> & ->)];
    unfold failure_result; by rewrite Hcls.
Qed.

(** X7.  The request begins with the system prompt and carries the text of
    each of the six fields, as [format] gives it, unchanged. *)
Theorem prompt_contents (ticket : gmap str pyval) prompt :
  full_prompt ticket = Ret prompt →
  startswith build_system_prompt prompt = true
  ∧ ∀ k, k ∈ required_fields →
         ∃ v, ticket !! k = Some v ∧ py_in (py_format v) prompt = true.
Proof.
  unfold full_prompt, getitem. intros Hp.
  destruct (ticket !! u "id") as [v1|] eqn:H1; [|done].
  destruct (ticket !! u "subject") as [v2|] eqn:H2; [|done].
  destruct (ticket !! u "description") as [v3|] eqn:H3; [|done].
  destruct (ticket !! u "customer_email") as [v4|] eqn:H4; [|done].
  destruct (ticket !! u "customer_tier") as [v5|] eqn:H5; [|done].
  destruct (ticket !! u "created_at") as [v6|] eqn:H6; [|done].
  cbn [res_bind] in Hp. apply Ret_inj in Hp. subst prompt.
  match goal with |- startswith _ ?p = true ∧ _ =>
    match p with
    | ?P ++ nl ++ nl ++ ?h1 ++ nl ++ nl ++ ?h2 ++ ?x1 ++ nl ++ ?h3 ++ ?x2
      ++ nl ++ ?h4 ++ ?x3 ++ nl ++ ?h5 ++ ?x4 ++ nl ++ ?h6 ++ ?x5
      ++ nl ++ ?h7 ++ ?x6 ++ nl ++ nl ++ ?tail =>
        destruct (prompt_shape P h1 h2 h3 h4 h5 h6 h7 x1 x2 x3 x4 x5 x6 tail)
          as [Hstart Hin]
    end
  end.
  split; [exact Hstart|].
  intros k Hk. unfold required_fields in Hk.
  apply Forall_cons in Hin as [I1 Hin]. apply Forall_cons in Hin as [I2 Hin].
  apply Forall_cons in Hin as [I3 Hin]. apply Forall_cons in Hin as [I4 Hin].
  apply Forall_cons in Hin as [I5 Hin]. apply Forall_cons in Hin as [I6 _].
  apply elem_of_cons in Hk as [->|Hk]; [exists v1; split; [exact H1 | exact I1]|].
  apply elem_of_cons in Hk as [->|Hk]; [exists v2; split; [exact H2 | exact I2]|].
  apply elem_of_cons in Hk as [->|Hk]; [exists v3; split; [exact H3 | exact I3]|].
  apply elem_of_cons in Hk as [->|Hk]; [exists v4; split; [exact H4 | exact I4]|].
  apply elem_of_cons in Hk as [->|Hk]; [exists v5; split; [exact H5 | exact I5]|].
  apply elem_of_cons in Hk as [->|Hk]; [exists v6; split; [exact H6 | exact I6]|].
  by apply elem_of_nil in Hk.
Qed.

(** X8.  [classify_ticket] reads the six fields and nothing else: two
    tickets that agree on them are classified alike, so nothing else
    of a ticket reaches the remote model or the result. *)
Theorem other_fields_ignored self (t1 t2 : gmap str pyval) w :
  (∀ k, k ∈ required_fields → t1 !! k = t2 !! k) →
  classify_ticket self t1 w = classify_ticket self t2 w.
Proof.
  intros Hsame.
  assert (full_prompt t1 = full_prompt t2) as Hprompt.
  { unfold full_prompt, getitem.
    rewrite !Hsame by (unfold required_fields; set_solver). done. }
  destruct (full_prompt t2) as [prompt|e] eqn:Hp.
  - destruct (full_prompt_id _ _ Hp) as [ticket_id Hid].
    assert (t1 !! u "id" = Some ticket_id) as Hid'.
    { rewrite Hsame by (unfold required_fields; set_solver). done. }
    rewrite (classify_ticket_eq _ _ _ _ _ Hp Hid).
    by rewrite (classify_ticket_eq _ _ _ _ _ Hprompt Hid').
  - unfold classify_ticket, bind, lift. by rewrite Hprompt, Hp.
Qed.

End ContractMore.

(** ** The progress output of [process_batch] *)

Instance has_required_fields_dec ticket : Decision (has_required_fields ticket).
Proof. unfold has_required_fields. apply _. Defined.


Section BatchMore.
Context `{External}.
Implicit Types (self : AgentClassifier) (ticket : gmap str pyval) (w : world).

(** The loop over a run of complete tickets, whatever follows them. *)
Lemma batch_loop_prefix self total good :
  Forall has_required_fields good →
  ∀ i acc w,
  ∃ results prompts,
    (∀ out, classify_each self good (World (sent w) out)
            = (Ret results, World (sent w ++ prompts) out))
    ∧ (∀ l, batch_loop self total i (good ++ l) acc w
            = batch_loop self total (i + length good) l (acc ++ results)
                (World (sent w ++ prompts)
                       (stdout w ++ progress_output total i good results)))
    ∧ Forall2 (λ ticket prompt, full_prompt ticket = Ret prompt) good prompts
    ∧ Forall2 (λ ticket result, result !! u "ticket_id" = ticket !! u "id")
              good results
    ∧ Forall (λ r, ∃ b, r !! u "success" = Some (PBool b)) results.
Proof.
  induction 1 as [|ticket rest Hreq _ IH]; intros i acc w.
  - exists [], []. rewrite !app_nil_r. split; [by destruct w|].
    split; [|repeat split; constructor].
    intros l. cbn [app length progress_output]. rewrite ?app_nil_r, ?Nat.add_0_r.
    by destruct w.
  - apply full_prompt_Ret in Hreq as [prompt Hp].
    destruct (full_prompt_id _ _ Hp) as [ticket_id Hid].
    set (answer := generate_content (model self) (sent w) prompt).
    set (result := result_of ticket_id answer).
    destruct (result_of_shape ticket_id answer) as (Htid & b & Hb & _ & Herr).
    fold result in Htid, Hb, Herr.
    set (line1 := progress_line total i ticket_id).
    assert (is_success result = b) as Hsucc
      by (unfold is_success; by rewrite Hb).
    assert (
      (if py_truthy (PBool b) then print (10003%N :: u " SUCCESS") nl
       else bind (lift (getitem result (u "error")))
                 (λ error, print (10007%N :: u " FAILED: " ++ py_format error) nl))
        (World (sent w ++ [prompt]) (stdout w ++ [line1 ++ []]))
      = (Ret tt, World (sent w ++ [prompt])
                       ((stdout w ++ [line1 ++ []]) ++ [outcome_line result])))
      as Hprint.
    { unfold outcome_line. rewrite Hsucc. destruct b; cbn [py_truthy].
      - done.
      - destruct (proj2 Herr eq_refl) as [message Hm].
        rewrite (bind_Ret _ _ _ _ _ (lift_getitem _ _ _ _ Hm)). by rewrite Hm. }
    destruct (IH (S i) (acc ++ [result])
                 (World (sent w ++ [prompt])
                        ((stdout w ++ [line1 ++ []]) ++ [outcome_line result])))
      as (results & prompts & Heach & Hloop & Hprompts & Hids & Hflags).
    cbn [sent stdout] in Heach, Hloop.
    exists (result :: results), (prompt :: prompts).
    split; [|split; [|split; [|split]]].
    + intros out'. cbn [classify_each].
      rewrite (bind_Ret _ _ _ _ _
                 (classify_ticket_eq self ticket (World (sent w) out') _ _ Hp Hid)).
      cbn [sent stdout]. rewrite (bind_Ret _ _ _ _ _ (Heach out')).
      unfold ret. fold answer. fold result. by rewrite <- app_assoc.
    + intros l. rewrite <- app_comm_cons. cbn [batch_loop].
      rewrite (bind_Ret _ _ _ _ _ (lift_getitem _ _ _ _ Hid)).
      rewrite (bind_Ret _ _ _ _ _ (print_eq _ _ _)).
      fold (progress_line total i ticket_id). fold line1.
      rewrite (bind_Ret _ _ _ _ _
                 (classify_ticket_eq self ticket _ _ _ Hp Hid)).
      cbn [sent stdout]. fold answer. fold result.
      rewrite (bind_Ret _ _ _ _ _ (lift_getitem _ _ _ _ Hb)).
      rewrite (bind_Ret _ _ _ _ _ Hprint).
      rewrite Hloop. cbn [length progress_output]. rewrite Hid. cbn [default].
      fold line1. rewrite app_nil_r, <- !app_assoc, Nat.add_succ_r. done.
    + by constructor.
    + constructor; [by rewrite Hid | done].
    + constructor; eauto.
Qed.

(** The field that is found missing does not depend on the moment. *)
Lemma classify_ticket_missing_any self ticket :
  ¬ has_required_fields ticket →
  ∃ k, k ∈ required_fields ∧ ticket !! k = None
       ∧ ∀ w, classify_ticket self ticket w
              = (Raise (Exn KeyError (u "'" ++ k ++ u "'")), w).
Proof.
  intros Hmiss.
  destruct (classify_ticket_missing self ticket (World [] []) Hmiss)
    as (k & Hk & Hnone & Hraise).
  exists k. split; [done|]. split; [done|]. intros w.
  destruct (full_prompt ticket) as [prompt|e] eqn:Hp.
  - destruct (full_prompt_id _ _ Hp) as [ticket_id Hid].
    by rewrite (classify_ticket_eq _ _ _ _ _ Hp Hid) in Hraise.
  - revert Hraise. unfold classify_ticket, bind, lift. rewrite Hp.
    by intros [= ->].
Qed.

(** [process_batch] on complete tickets, in full. *)
Lemma process_batch_eq self tickets w :
  Forall has_required_fields tickets →
  ∃ results prompts,
    (∀ out, classify_each self tickets (World (sent w) out)
            = (Ret results, World (sent w ++ prompts) out))
    ∧ process_batch self tickets w
      = (Ret results,
         World (sent w ++ prompts)
               (stdout w ++ batch_header (length tickets)
                ++ progress_output (length tickets) 1 tickets results
                ++ batch_footer (length (filter (λ r, is_success r = true) results))
                                (length tickets)))
    ∧ length results = length tickets
    ∧ length prompts = length tickets.
Proof.
  intros Hreq.
  set (w1 := World (sent w)
               (((stdout w ++ [(nl ++ rule) ++ nl])
                 ++ [(u "PROCESSING " ++ str_of_nat (length tickets)
                      ++ u " TICKETS WITH GEMINI") ++ nl])
                ++ [(rule ++ nl) ++ nl])).
  destruct (batch_loop_prefix self (length tickets) tickets Hreq 1 [] w1)
    as (results & prompts & Heach & Hloop & Hprompts & Hids & Hflags).
  specialize (Hloop []). rewrite app_nil_r in Hloop.
  cbn [sent stdout w1 app batch_loop] in Heach, Hloop.
  exists results, prompts. split; [done|]. split; [|split].
  - unfold process_batch.
    do 3 rewrite (bind_Ret _ _ _ _ _ (print_eq _ _ _)).
    cbn [sent stdout]. fold w1. rewrite (bind_Ret _ _ _ _ _ Hloop).
    rewrite (bind_Ret _ _ _ _ _
               (f_equal (λ r, (r, _)) (count_success_eq _ Hflags))).
    do 3 rewrite (bind_Ret _ _ _ _ _ (print_eq _ _ _)).
    unfold ret. cbn [sent stdout w1]. f_equal. f_equal.
    unfold batch_header, batch_footer. by rewrite <- !app_assoc.
  - symmetry. by eapply Forall2_length.
  - symmetry. by eapply Forall2_length.
Qed.


(** The batch up to its first incomplete ticket. *)
Lemma process_batch_stops self good bad rest w :
  Forall has_required_fields good →
  ¬ has_required_fields bad →
  let total := length (good ++ bad :: rest) in
  ∃ k results prompts,
    k ∈ required_fields ∧ bad !! k = None
    ∧ classify_each self good w = (Ret results, World (sent w ++ prompts) (stdout w))
    ∧ length prompts = length good
    ∧ process_batch self (good ++ bad :: rest) w
      = (Raise (Exn KeyError (u "'" ++ k ++ u "'")),
         World (sent w ++ prompts)
               (stdout w ++ batch_header total
                ++ progress_output total 1 good results
                ++ match bad !! u "id" with
                   | Some ticket_id => [progress_line total (S (length good)) ticket_id]
                   | None => []
                   end)).
Proof.
  intros Hgood Hbad total.
  set (w1 := World (sent w)
               (((stdout w ++ [(nl ++ rule) ++ nl])
                 ++ [(u "PROCESSING " ++ str_of_nat total
                      ++ u " TICKETS WITH GEMINI") ++ nl])
                ++ [(rule ++ nl) ++ nl])).
  destruct (batch_loop_prefix self total good Hgood 1 [] w1)
    as (results & prompts & Heach & Hloop & Hprompts & _ & _).
  specialize (Hloop (bad :: rest)). specialize (Heach (stdout w)).
  cbn [sent stdout w1 app] in Heach, Hloop.
  assert (∃ k, k ∈ required_fields ∧ bad !! k = None
    ∧ ∀ i acc w2, batch_loop self total i (bad :: rest) acc w2
        = (Raise (Exn KeyError (u "'" ++ k ++ u "'")),
           World (sent w2)
                 (stdout w2 ++ match bad !! u "id" with
                               | Some ticket_id => [progress_line total i ticket_id]
                               | None => []
                               end))) as (k & Hk & Hnone & Hstop).
  { destruct (bad !! u "id") as [ticket_id|] eqn:Hid.
    - destruct (classify_ticket_missing_any self bad Hbad) as (k & Hk & Hnone & Hraise).
      exists k. split; [done|]. split; [done|]. intros i acc w2.
      cbn [batch_loop].
      rewrite (bind_Ret _ _ _ _ _ (lift_getitem _ _ _ _ Hid)).
      rewrite (bind_Ret _ _ _ _ _ (print_eq _ _ _)).
      fold (progress_line total i ticket_id).
      unfold bind at 1. by rewrite Hraise, app_nil_r.
    - exists (u "id"). split; [set_solver|]. split; [done|]. intros i acc w2.
      cbn [batch_loop]. unfold bind, lift, getitem. rewrite Hid, app_nil_r.
      by destruct w2. }
  exists k, results, prompts. split; [done|]. split; [done|].
  split; [by destruct w|].
  split; [symmetry; by eapply Forall2_length|].
  unfold process_batch.
  do 3 rewrite (bind_Ret _ _ _ _ _ (print_eq _ _ _)).
  cbn [sent stdout]. fold total. fold w1.
  unfold bind at 1. rewrite Hloop, Hstop. cbn [sent stdout w1].
  f_equal. f_equal. unfold batch_header. rewrite <- !app_assoc.
  done.
Qed.

(** X10.  A ticket that lacks one of the six fields stops the batch with the
    [KeyError] of that field: the results of the tickets before it are
    lost although their requests were sent, nothing is sent for it or
    for the tickets after it, and the output ends in the middle of the
    progress, without a summary. *)
Theorem process_batch_aborts self good bad rest w :
  Forall has_required_fields good →
  ¬ has_required_fields bad →
  let total := length (good ++ bad :: rest) in
  ∃ k results prompts,
    k ∈ required_fields ∧ bad !! k = None
    ∧ classify_each self good w = (Ret results, World (sent w ++ prompts) (stdout w))
    ∧ length prompts = length good
    ∧ process_batch self (good ++ bad :: rest) w
      = (Raise (Exn KeyError (u "'" ++ k ++ u "'")),
         World (sent w ++ prompts)
               (stdout w ++ batch_header total
                ++ progress_output total 1 good results
                ++ match bad !! u "id" with
                   | Some ticket_id => [progress_line total (S (length good)) ticket_id]
                   | None => []
                   end)).
Proof. apply process_batch_stops. Qed.

Lemma classify_each_app self a b w ra wa rb wb :
  classify_each self a w = (Ret ra, wa) →
  classify_each self b wa = (Ret rb, wb) →
  classify_each self (a ++ b) w = (Ret (ra ++ rb), wb).
Proof.
  revert w ra. induction a as [|ticket a IH]; intros w ra.
  - by intros [= <- <-].
  - cbn [classify_each app]. unfold bind, ret.
    destruct (classify_ticket self ticket w) as [[r|e] w1]; [|done].
    destruct (classify_each self a w1) as [[ra'|e] w2] eqn:Ha; [|done].
    intros [= <- <-] Hb. by rewrite (IH _ _ Ha Hb).
Qed.

(** X11.  A batch in two calls is a batch in one: the results of the
    tickets [a ++ b] are those of [a] followed by those of [b]
    processed next, and the same requests are sent. *)
Theorem process_batch_app self a b w :
  Forall has_required_fields a →
  Forall has_required_fields b →
  ∃ ra rb wa wb,
    process_batch self a w = (Ret ra, wa)
    ∧ process_batch self b wa = (Ret rb, wb)
    ∧ (process_batch self (a ++ b) w).1 = Ret (ra ++ rb)
    ∧ sent (process_batch self (a ++ b) w).2 = sent wb.
Proof.
  intros Ha Hb.
  destruct (process_batch_eq self a w Ha) as (ra & pa & Hea & Hpa & _).
  match type of Hpa with _ = (_, ?w1) => set (wa := w1) in * end.
  destruct (process_batch_eq self b wa Hb) as (rb & pb & Heb & Hpb & _).
  eexists ra, rb, wa, _. split; [exact Hpa|]. split; [exact Hpb|].
  destruct (process_batch_eq self (a ++ b) w (Forall_app_2 _ _ _ Ha Hb))
    as (rab & pab & Heab & -> & _).
  cbn [fst snd sent wa] in *.
  pose proof (classify_each_app _ _ _ _ _ _ _ _ (Hea []) (Heb [])) as Happ.
  rewrite (Heab []) in Happ. by injection Happ as -> ->.
Qed.

End BatchMore.

(** ** Steps that only print *)

Lemma prints_only_ret {A} (a : A) : prints_only (ret a).
Proof. intros w. unfold ret. cbn. by rewrite app_nil_r; destruct w. Qed.

Lemma prints_only_lift {A} (r : res A) : prints_only (lift r).
Proof. intros w. unfold lift. cbn. by rewrite app_nil_r; destruct w. Qed.

Lemma prints_only_print s e : prints_only (print s e).
Proof. intros w. by rewrite !print_eq. Qed.

Lemma prints_only_println s : prints_only (println s).
Proof. apply prints_only_print. Qed.

Lemma prints_only_bind {A B} (m : M A) (k : A → M B) :
  prints_only m → (∀ a, prints_only (k a)) → prints_only (bind m k).
Proof.
  intros Hm Hk w. unfold bind. rewrite (Hm w).
  pose proof (Hm w0) as Hm0. cbn [sent stdout w0 app] in Hm0.
  destruct (m w0) as [[a|e] w1]; cbn [fst snd] in *.
  - injection Hm0 as ->. rewrite (Hk a (World (sent w) _)).
    rewrite (Hk a (World [] _)). cbn [fst snd sent stdout].
    by rewrite app_assoc.
  - done.
Qed.

Lemma prints_only_sent {A} (m : M A) w : prints_only m → sent (m w).2 = sent w.
Proof. intros Hm. by rewrite (Hm w). Qed.

Lemma prints_only_outcome {A} (m : M A) w : prints_only m → (m w).1 = (m w0).1.
Proof. intros Hm. by rewrite (Hm w). Qed.

Ltac only_prints :=
  repeat first
    [ apply prints_only_ret | apply prints_only_lift | apply prints_only_println
    | apply prints_only_print
    | apply prints_only_bind; [|intros ?]
    | match goal with |- prints_only (if ?b then _ else _) => destruct b end ].

Section Printing.
Context `{External} `{Formatting}.

Lemma print_result_prints_only result : prints_only (print_result result).
Proof. unfold print_result. only_prints. Qed.

Lemma print_results_prints_only results : prints_only (print_results results).
Proof.
  induction results as [|r rs IH]; cbn [print_results]; only_prints. exact IH.
Qed.

Lemma println_eq s w : println s w = (Ret tt, World (sent w) (stdout w ++ [s ++ nl])).
Proof. done. Qed.

(** X12.  A failure that [classify_ticket] returned is printed in one line,
    with its ticket id and its message; [print_result] returns. *)
Theorem failure_is_printed self ticket w result w' :
  classify_ticket self ticket w = (Ret result, w') →
  is_success result = false →
  ∃ ticket_id message,
    ticket !! u "id" = Some ticket_id
    ∧ result !! u "error" = Some (PStr message)
    ∧ ∀ w2, print_result result w2
            = (Ret tt, World (sent w2)
                             (stdout w2 ++ [error_line ticket_id (PStr message)])).
Proof.
  intros Hc Hfail.
  destruct (full_prompt ticket) as [prompt|e] eqn:Hp.
  2: { revert Hc. unfold classify_ticket, bind, lift. by rewrite Hp. }
  destruct (full_prompt_id _ _ Hp) as [ticket_id Hid].
  rewrite (classify_ticket_eq _ _ _ _ _ Hp Hid) in Hc. injection Hc as <- _.
  destruct (result_of_shape ticket_id
              (generate_content (model self) (sent w) prompt))
    as (Htid & b & Hb & _ & Herr).
  cbn zeta in Htid, Hb, Herr.
  set (result := result_of _ _) in *.
  assert (b = false) as -> by (revert Hfail; unfold is_success; by rewrite Hb).
  destruct (proj2 Herr eq_refl) as [message Hm].
  exists ticket_id, message. split; [done|]. split; [done|]. intros w2.
  unfold print_result.
  rewrite (bind_Ret _ _ _ _ _ (lift_getitem _ _ _ _ Hb)). cbn [py_truthy negb].
  rewrite (bind_Ret _ _ _ _ _ (lift_getitem _ _ _ _ Htid)).
  rewrite (bind_Ret _ _ _ _ _ (lift_getitem _ _ _ _ Hm)).
  by rewrite println_eq.
Qed.

(** X13.  A success whose classification is not an object, which
    [classify_ticket] lets through, cannot be printed: [print_result]
    raises on its category, after the three lines of the head. *)
Theorem non_object_is_not_printed (result : gmap str pyval) ok ticket_id v w :
  result !! u "success" = Some ok →
  py_truthy ok = true →
  result !! u "ticket_id" = Some ticket_id →
  result !! u "classification" = Some v →
  (∀ members, v ≠ PDict members) →
  ∃ e, exn_class_of e = OtherError
       ∧ print_result result w
         = (Raise e, World (sent w) (stdout w ++ success_head ticket_id)).
Proof.
  intros Hok Htrue Htid Hv Hnot.
  assert (∃ e, exn_class_of e = OtherError ∧ subscript v (u "category") = Raise e)
    as (e & Hcls & He).
  { destruct v as [| | | | | |members];
      try (eexists (Exn OtherError _); split; reflexivity).
    by destruct (Hnot members). }
  exists e. split; [done|]. unfold print_result.
  rewrite (bind_Ret _ _ _ _ _ (lift_getitem _ _ _ _ Hok)). rewrite Htrue. cbn [negb].
  rewrite (bind_Ret _ _ _ _ _ (lift_getitem _ _ _ _ Hv)).
  rewrite (bind_Ret _ _ _ _ _ (println_eq _ _)).
  rewrite (bind_Ret _ _ _ _ _ (lift_getitem _ _ _ _ Htid)).
  rewrite (bind_Ret _ _ _ _ _ (println_eq _ _)).
  rewrite (bind_Ret _ _ _ _ _ (println_eq _ _)).
  unfold bind at 1, lift at 1. rewrite He. cbn [sent stdout].
  unfold success_head. by rewrite <- !app_assoc.
Qed.


End Printing.

(** ** The routes *)

Section Routes.
Context `{External}.
Implicit Types (c : AgentClassifier) (w : world).


(** X16.  One incomplete ticket in the file costs the whole batch: the
    answer is 500, its error is nothing but the name of the missing
    field between quotes, and the requests for the tickets before it
    have been sent. *)
Theorem batch_route_missing_field c good bad rest w :
  Forall has_required_fields good →
  ¬ has_required_fields bad →
  ∃ k prompts,
    k ∈ required_fields ∧ bad !! k = None ∧ length prompts = length good
    ∧ (process_batch_route (Some c) (FileHolds (good ++ bad :: rest)) w).1
      = Ret (JsonObject {[ u "success" := PBool false;
                           u "error" := PStr (u "'" ++ k ++ u "'") ]}, 500)
    ∧ sent (process_batch_route (Some c) (FileHolds (good ++ bad :: rest)) w).2
      = sent w ++ prompts.
Proof.
  intros Hgood Hbad.
  destruct (process_batch_stops c good bad rest w Hgood Hbad)
    as (k & results & prompts & Hk & Hnone & _ & Hlen & Hstop).
  exists k, prompts. split; [done|]. split; [done|]. split; [done|].
  unfold process_batch_route, try_except, bind, lift, ret. cbn [load_tickets].
  by rewrite Hstop.
Qed.

(** X17.  [/classify] answers 200 for every ticket that has the six fields,
    whether the classification succeeded or failed; for any other
    ticket the [KeyError] leaves the route. *)
Theorem classify_route_status c (ticket : gmap str pyval) w :
  (has_required_fields ticket →
   ∃ result b, (classify_route (Some c) ticket w).1 = Ret (result, 200)
               ∧ result !! u "success" = Some (PBool b))
  ∧ (¬ has_required_fields ticket →
     ∃ e, exn_class_of e = KeyError
          ∧ classify_route (Some c) ticket w = (Raise e, w)).
Proof.
  unfold classify_route. split.
  - intros [prompt Hp]%full_prompt_Ret.
    destruct (full_prompt_id _ _ Hp) as [ticket_id Hid].
    rewrite (bind_Ret _ _ _ _ _ (classify_ticket_eq _ _ _ _ _ Hp Hid)).
    destruct (result_of_shape ticket_id
                (generate_content (model c) (sent w) prompt))
      as (_ & b & Hb & _).
    by eexists _, b.
  - intros Hmiss.
    destruct (classify_ticket_missing_any c ticket Hmiss) as (k & _ & _ & Hraise).
    eexists. split; [|unfold bind; by rewrite Hraise]. done.
Qed.

End Routes.

(** ** The test mode *)

Section Main.
Context `{External} `{Formatting}.
Implicit Types (c : AgentClassifier) (w : world).

Lemma print_results_outcome results w :
  ((print_results results w).1 = Ret tt
   ↔ Forall (λ r, (print_result r w0).1 = Ret tt) results)
  ∧ ((print_results results w).1 ≠ Ret tt → ∃ e, (print_results results w).1 = Raise e).
Proof.
  rewrite (prints_only_outcome _ w (print_results_prints_only results)).
  induction results as [|r rs [IH1 IH2]]; [by split|].
  cbn [print_results]. unfold bind.
  pose proof (print_result_prints_only r w0) as Hr.
  destruct (print_result r w0) as [[[]|e] w1] eqn:Hrun; cbn [fst snd] in *.
  - rewrite (prints_only_outcome _ w1 (print_results_prints_only rs)).
    split; [|exact IH2]. rewrite Forall_cons, <- IH1. rewrite Hrun. cbn [fst].
    split; [by split | by intros [_ ?]].
  - split; [|eauto]. split; [done|]. intros [Hr' _]%Forall_cons.
    by rewrite Hrun in Hr'.
Qed.

(** X18.  The test mode ends in [exit(1)] exactly when the file of tickets
    is not found, or is read while the key is not set; in both cases
    nothing has been sent. *)
Theorem main_exits env file w :
  ((main env file w).1 = Ret (Exited 1)
   ↔ file = FileNotFound
     ∨ (∃ tickets, file = FileHolds tickets)
       ∧ not_api_key (os_getenv env (u "GEMINI_API_KEY")) = true)
  ∧ ((main env file w).1 = Ret (Exited 1) → sent (main env file w).2 = sent w).
Proof.
  unfold main. rewrite (bind_Ret _ _ _ _ _ (println_eq _ _)).
  destruct file as [|e|tickets].
  - rewrite (bind_Ret _ _ _ _ _ (println_eq _ _)). unfold ret. cbn [fst snd sent].
    split; [split; [by left | done] | done].
  - unfold lift. cbn [fst snd sent].
    split; [split; [done | by intros [?|[[? ?] _]]] | done].
  - rewrite (bind_Ret _ _ _ _ _ (println_eq _ _)).
    unfold AgentClassifier_init. cbv zeta.
    destruct (not_api_key _) eqn:Hkey; cbn [exn_class_of].
    + do 2 rewrite (bind_Ret _ _ _ _ _ (println_eq _ _)). unfold ret.
      cbn [fst snd sent].
      split; [split; [intros _; right; split; [by eexists | done] | done] | done].
    + rewrite (bind_Ret _ _ _ _ _ (println_eq _ _)).
      assert (∀ o : res exit_status * world,
        o.1 ≠ Ret (Exited 1) →
        (o.1 = Ret (Exited 1)
         ↔ FileHolds tickets = FileNotFound
           ∨ (∃ tickets0, FileHolds tickets = FileHolds tickets0) ∧ false = true)
        ∧ (o.1 = Ret (Exited 1) → sent o.2 = sent w)) as Hother.
      { intros o Ho. split; [split; [done | by intros [?|[_ ?]]] | done]. }
      apply Hother. unfold bind at 1.
      destruct (process_batch _ _ _) as [[results|e] w1]; [|done].
      unfold bind at 1.
      destruct (print_results _ _) as [[[]|e] w2]; [|done].
      by rewrite (bind_Ret _ _ _ _ _ (println_eq _ _)).
Qed.

(** X19.  With the key set and every ticket complete, the test mode sends
    one request per ticket before it prints any result: it reaches
    its last line exactly when every result can be printed, and
    otherwise an exception escapes after all the requests. *)
Theorem main_outcome env c tickets w :
  AgentClassifier_init env = Ret c →
  Forall has_required_fields tickets →
  ∃ results prompts,
    classify_each c tickets w = (Ret results, World (sent w ++ prompts) (stdout w))
    ∧ length prompts = length tickets
    ∧ sent (main env (FileHolds tickets) w).2 = sent w ++ prompts
    ∧ ((main env (FileHolds tickets) w).1 = Ret Finished
       ↔ Forall (λ r, (print_result r w0).1 = Ret tt) results)
    ∧ ((main env (FileHolds tickets) w).1 ≠ Ret Finished
       → ∃ e, (main env (FileHolds tickets) w).1 = Raise e).
Proof.
  intros Hinit Hall. unfold main.
  do 2 rewrite (bind_Ret _ _ _ _ _ (println_eq _ _)). rewrite Hinit.
  rewrite (bind_Ret _ _ _ _ _ (println_eq _ _)). cbn [sent stdout].
  set (w1 := World (sent w) _).
  destruct (process_batch_eq c tickets w1 Hall)
    as (results & prompts & Heach & Hrun & _ & Hlen).
  cbn [sent w1] in Heach, Hrun.
  exists results, prompts. split; [specialize (Heach (stdout w)); by destruct w|].
  split; [done|].
  rewrite (bind_Ret _ _ _ _ _ Hrun).
  set (w2 := World (sent w ++ prompts) _).
  destruct (print_results_outcome results w2) as [Hiff Hnot].
  pose proof (prints_only_sent _ w2 (print_results_prints_only results)) as Hsent.
  unfold bind, println, print, ret.
  destruct (print_results results w2) as [[[]|e] w3]; cbn [fst snd sent] in *.
  - split; [done|]. split; [by rewrite <- Hiff | done].
  - split; [done|]. split; [|eauto]. rewrite <- Hiff. by split.
Qed.

End Main.

(** ** Further worked examples *)

Lemma text_before_marker_ignored_witness :
  strip_fences (strip chatty_reply) = strip_fences (drop 28 (strip chatty_reply)).
Proof. apply (text_before_marker_ignored chatty_reply 28). vm_compute; reflexivity. Defined.

Lemma unclosed_fence_content_witness :
  strip_fences (strip unclosed_reply) = Ret (strip (drop (0 + 7) (strip unclosed_reply))).
Proof. apply (unclosed_fence_content unclosed_reply 0); vm_compute; reflexivity. Defined.

Lemma closed_fence_content_witness :
  strip_fences (strip fenced_reply)
  = Ret (strip (take 4 (drop (0 + 7) (strip fenced_reply)))).
Proof.
  apply (closed_fence_content fenced_reply 0 4); [vm_compute; reflexivity ..|].
  intros q Hq. vm_compute in Hq. discriminate.
Defined.

Lemma request_decode_error_witness :
  @classify_ticket (scripted [Raise decode_error]) sample_classifier sample_ticket w0
  = (Ret {[ u "success" := PBool false;
            u "ticket_id" := PStr (u "TKT-001");
            u "error" := PStr (u "Failed to parse JSON response: "
                               ++ exn_str decode_error);
            u "raw_response" := PNone ]},
     World (sent w0 ++ [sample_prompt]) (stdout w0)).
Proof.
  apply (@request_decode_error (scripted [Raise decode_error]) sample_classifier
           sample_ticket w0 sample_prompt (PStr (u "TKT-001")) decode_error);
    [vm_compute; reflexivity .. | left; vm_compute; reflexivity].
Defined.

Lemma prompt_contents_witness :
  startswith build_system_prompt sample_prompt = true
  ∧ ∀ k, k ∈ required_fields →
         ∃ v, sample_ticket !! k = Some v
              ∧ py_in (@py_format (scripted []) v) sample_prompt = true.
Proof.
  apply (@prompt_contents (scripted []) sample_ticket sample_prompt).
  vm_compute; reflexivity.
Defined.

Lemma ticket_with_note_same_fields k :
  k ∈ required_fields → ticket_with_note !! k = sample_ticket !! k.
Proof.
  intros Hk. unfold required_fields in Hk.
  repeat (apply elem_of_cons in Hk as [->|Hk]; [vm_compute; reflexivity|]).
  by apply elem_of_nil in Hk.
Qed.

Lemma other_fields_ignored_witness :
  @classify_ticket (scripted [says number_reply]) sample_classifier ticket_with_note w0
  = @classify_ticket (scripted [says number_reply]) sample_classifier sample_ticket w0.
Proof.
  apply (@other_fields_ignored (scripted [says number_reply])).
  exact ticket_with_note_same_fields.
Defined.

Lemma ticket_without_subject_incomplete : ¬ has_required_fields ticket_without_subject.
Proof.
  intros Hall. apply Forall_cons in Hall as [_ Hall].
  apply Forall_cons in Hall as [[v Hv] _]. vm_compute in Hv. discriminate.
Qed.


Lemma one_sample_ticket : Forall has_required_fields [sample_ticket].
Proof. repeat (constructor; [exact sample_ticket_has_fields|]). constructor. Qed.


Lemma process_batch_aborts_witness :
  let tickets := [sample_ticket] ++ ticket_without_subject :: [sample_ticket] in
  ∃ k results prompts,
    k ∈ required_fields ∧ ticket_without_subject !! k = None
    ∧ @classify_each (scripted [says number_reply]) sample_classifier [sample_ticket] w0
      = (Ret results, World (sent w0 ++ prompts) (stdout w0))
    ∧ length prompts = length [sample_ticket]
    ∧ @process_batch (scripted [says number_reply]) sample_classifier tickets w0
      = (Raise (Exn KeyError (u "'" ++ k ++ u "'")),
         World (sent w0 ++ prompts)
               (stdout w0 ++ batch_header (length tickets)
                ++ @progress_output (scripted [says number_reply]) (length tickets) 1
                     [sample_ticket] results
                ++ match ticket_without_subject !! u "id" with
                   | Some ticket_id =>
                       [@progress_line (scripted [says number_reply]) (length tickets)
                          (S (length [sample_ticket])) ticket_id]
                   | None => []
                   end)).
Proof.
  apply (@process_batch_aborts (scripted [says number_reply]) sample_classifier
           [sample_ticket] ticket_without_subject [sample_ticket] w0).
  - exact one_sample_ticket.
  - exact ticket_without_subject_incomplete.
Defined.

Lemma process_batch_app_witness :
  ∃ ra rb wa wb,
    @process_batch (scripted [says number_reply; says fenced_apology])
      sample_classifier [sample_ticket] w0 = (Ret ra, wa)
    ∧ @process_batch (scripted [says number_reply; says fenced_apology])
        sample_classifier [sample_ticket] wa = (Ret rb, wb)
    ∧ (@process_batch (scripted [says number_reply; says fenced_apology])
         sample_classifier ([sample_ticket] ++ [sample_ticket]) w0).1 = Ret (ra ++ rb)
    ∧ sent (@process_batch (scripted [says number_reply; says fenced_apology])
              sample_classifier ([sample_ticket] ++ [sample_ticket]) w0).2 = sent wb.
Proof.
  apply (@process_batch_app (scripted [says number_reply; says fenced_apology]));
    exact one_sample_ticket.
Defined.

Lemma failure_is_printed_witness :
  ∃ ticket_id message,
    sample_ticket !! u "id" = Some ticket_id
    ∧ apology_result !! u "error" = Some (PStr message)
    ∧ ∀ w2, @print_result (scripted [says fenced_apology]) percent_of_examples
              apology_result w2
            = (Ret tt, World (sent w2)
                             (stdout w2
                              ++ [@error_line (scripted [says fenced_apology])
                                    ticket_id (PStr message)])).
Proof.
  apply (@failure_is_printed (scripted [says fenced_apology]) percent_of_examples
           sample_classifier sample_ticket w0 apology_result
           (World [sample_prompt] []));
    vm_compute; reflexivity.
Defined.

Lemma non_object_is_not_printed_witness :
  ∃ e, exn_class_of e = OtherError
       ∧ @print_result (scripted []) percent_of_examples
           (success_result (PStr (u "TKT-001")) (PInt 42)) w0
         = (Raise e, World (sent w0)
                           (stdout w0 ++ @success_head (scripted [])
                                           (PStr (u "TKT-001")))).
Proof.
  apply (@non_object_is_not_printed (scripted []) percent_of_examples
           (success_result (PStr (u "TKT-001")) (PInt 42)) (PBool true)
           (PStr (u "TKT-001")) (PInt 42) w0);
    [vm_compute; reflexivity .. | discriminate].
Defined.


Lemma batch_route_missing_field_witness :
  ∃ k prompts,
    k ∈ required_fields ∧ ticket_without_subject !! k = None
    ∧ length prompts = length [sample_ticket]
    ∧ (@process_batch_route (scripted [says number_reply]) (Some sample_classifier)
         (FileHolds ([sample_ticket] ++ ticket_without_subject :: [sample_ticket]))
         w0).1
      = Ret (JsonObject {[ u "success" := PBool false;
                           u "error" := PStr (u "'" ++ k ++ u "'") ]}, 500)
    ∧ sent (@process_batch_route (scripted [says number_reply]) (Some sample_classifier)
              (FileHolds ([sample_ticket] ++ ticket_without_subject :: [sample_ticket]))
              w0).2
      = sent w0 ++ prompts.
Proof.
  apply (@batch_route_missing_field (scripted [says number_reply])).
  - exact one_sample_ticket.
  - exact ticket_without_subject_incomplete.
Defined.

Lemma main_outcome_witness :
  ∃ results prompts,
    @classify_each (scripted [says number_reply]) sample_classifier [sample_ticket] w0
    = (Ret results, World (sent w0 ++ prompts) (stdout w0))
    ∧ length prompts = length [sample_ticket]
    ∧ sent (@main (scripted [says number_reply]) percent_of_examples env_with_key
              (FileHolds [sample_ticket]) w0).2 = sent w0 ++ prompts
    ∧ ((@main (scripted [says number_reply]) percent_of_examples env_with_key
          (FileHolds [sample_ticket]) w0).1 = Ret Finished
       ↔ Forall (λ r, (@print_result (scripted [says number_reply]) percent_of_examples
                         r w0).1 = Ret tt) results)
    ∧ ((@main (scripted [says number_reply]) percent_of_examples env_with_key
          (FileHolds [sample_ticket]) w0).1 ≠ Ret Finished
       → ∃ e, (@main (scripted [says number_reply]) percent_of_examples env_with_key
                 (FileHolds [sample_ticket]) w0).1 = Raise e).
Proof.
  apply (@main_outcome (scripted [says number_reply]) percent_of_examples
           env_with_key sample_classifier [sample_ticket] w0).
  - vm_compute; reflexivity.
  - exact one_sample_ticket.
Defined.

(** The test mode on a reply that is a bare number: the result counts
    as a success, and printing it ends the run in a [TypeError] after
    the request was made. *)
Example main_crashes_on_number :
  let run := @main (scripted [says number_reply]) percent_of_examples env_with_key
               (FileHolds [sample_ticket]) w0 in
  run.1 = Raise (Exn OtherError (u "'int' object is not subscriptable"))
  ∧ sent run.2 = [sample_prompt]
  ∧ length (stdout run.2) = 14.
Proof. repeat split; vm_compute; reflexivity. Qed.

(** The test mode on a classification as the prompt asks for it. *)
Example main_finishes :
  let run := @main (scripted [says (Json.dumps (classification_object
                                                   sample_classification))])
               percent_of_examples env_with_key (FileHolds [sample_ticket]) w0 in
  run.1 = Ret Finished
  ∧ stdout run.2 !! 16 = Some (127919%N :: u " Confidence:   90%" ++ nl)
  ∧ stdout run.2 !! 17 = Some (9989%N :: u " RESOLVE:      Handle autonomously" ++ nl)
  ∧ stdout run.2 !! 19
    = Some (127991%N :: 65039%N :: u "  Tags:        invoice, billing" ++ nl).
Proof. repeat split; vm_compute; reflexivity. Qed.

(** The truth of a float is that of the double it is read into: a
    literal that underflows is false, the least positive double and
    what rounds to it are true, and so are the constants. *)
Example float_truth :
  py_truthy (PFloat (u "1e-400")) = false
  ∧ py_truthy (PFloat (u "2e-324")) = false
  ∧ py_truthy (PFloat (u "3e-324")) = true
  ∧ py_truthy (PFloat (u "5e-324")) = true
  ∧ py_truthy (PFloat (u "-0.0")) = false
  ∧ py_truthy (PFloat (u "0.9")) = true
  ∧ py_truthy (PFloat (u "NaN")) = true.
Proof. repeat split; vm_compute; reflexivity. Qed.

(** An escalation flag that underflows is false: [print_result] does
    not read the team, prints the line of the autonomous resolution
    and returns. *)
Example underflow_flag_resolves :
  let run := @print_result (scripted []) percent_of_examples
               (success_result (PStr (u "TKT-001")) underflow_classification) w0 in
  run.1 = Ret tt
  ∧ @printable percent_of_examples underflow_classification
  ∧ length (stdout run.2) = 10
  ∧ stdout run.2 !! 6 = Some (9989%N :: u " RESOLVE:      Handle autonomously" ++ nl).
Proof.
  assert ((@print_result (scripted []) percent_of_examples
             (success_result (PStr (u "TKT-001")) underflow_classification) w0).1
          = Ret tt) as Hret by (vm_compute; reflexivity).
  split; [exact Hret|]. split; [|split; vm_compute; reflexivity].
  exists [ (u "category", PStr (u "BILLING"));
           (u "priority", PStr (u "LOW"));
           (u "should_escalate", PFloat (u "1e-400"));
           (u "reasoning", PStr (u "Simple invoice request"));
           (u "suggested_tags", PList [PStr (u "invoice")]) ].
  split; [reflexivity|].
  split; [eexists; vm_compute; reflexivity|].
  split; [eexists; vm_compute; reflexivity|].
  split; [eexists; vm_compute; reflexivity|].
  split.
  { exists (PFloat (u "1e-400")). split; [vm_compute; reflexivity|].
    intros Htrue. vm_compute in Htrue. discriminate. }
  split; [eexists; vm_compute; reflexivity|].
  do 2 eexists. split; vm_compute; reflexivity.
Qed.
